(** * AI trading simulator: the simulation engine, embedded and verified

    The development follows the three Pinia stores of the application
    ([trades], [market], [traders]) and the orchestration code of
    [TradingDashboard.vue].

    Numbers.  JavaScript numbers are IEEE-754 doubles.  They are modelled
    here by exact rationals ([Q]): [+], [-], [*] and [/] are the exact
    operations, and [Number(x.toFixed(d))] is rounding to [d] decimals with
    ties away from zero, which is what ECMAScript prescribes for the exact
    value of [x].  Counters and timestamps are integers ([Z]).

    Host environment.  [Math.random()] is an arbitrary stream of numbers read
    through a cursor kept in the state, [Date.now()] is an explicit argument,
    and the conversion of a number to a string inside template literals is a
    parameter of the development. *)

From Stdlib Require Import QArith Qround Qabs Qminmax Lqa ZArith Lia.
From stdpp Require Import gmap strings list pretty sorting.

(** ** Numbers *)

Module Num.

(** Boolean comparisons of the source: [<], [>], [<=], [>=]. *)
Definition ltb (x y : Q) : bool := negb (Qle_bool y x).
Definition leb (x y : Q) : bool := Qle_bool x y.
Definition gtb (x y : Q) : bool := ltb y x.
Definition geb (x y : Q) : bool := leb y x.

(** Nearest integer, ties away from zero: the integer [n] chosen by
    [Number.prototype.toFixed] once the sign has been set aside. *)
Definition roundHalfAway (x : Q) : Z :=
  if Qle_bool 0 x then Qfloor (x + (1 # 2))
  else (- Qfloor (- x + (1 # 2)))%Z.

(** [Number(x.toFixed(d))] where [scale = 10^d]. *)
Definition toFixed (scale : positive) (x : Q) : Q :=
  roundHalfAway (x * (Zpos scale # 1)) # scale.

Definition toFixed2 : Q → Q := toFixed 100.
Definition toFixed1 : Q → Q := toFixed 10.

(** [x.toFixed(2)] as a string: sign, integer part, two decimals. *)
Definition toFixed2String (x : Q) : string :=
  let n := Z.abs (roundHalfAway (x * 100)) in
  let frac := (n mod 100)%Z in
  (if ltb x 0 then "-" else "")
    +:+ pretty (n / 100)%Z +:+ "."
    +:+ (if (frac <? 10)%Z then "0" else "") +:+ pretty frac.

(** [Math.max] on two and on three arguments. *)
Definition max2 (x y : Q) : Q := Qmax x y.
Definition max3 (x y z : Q) : Q := Qmax (Qmax x y) z.

(** [Math.floor]. *)
Definition floor (x : Q) : Z := Qfloor x.

End Num.

Import Num.

(** ** Array helpers *)

(** [arr.slice(-n)]: the last [n] elements. *)
Definition sliceLast {A} (n : nat) (l : list A) : list A :=
  drop (length l - n) l.

(** [arr.slice(0, n)]: the first [n] elements. *)
Definition sliceFirst {A} (n : nat) (l : list A) : list A := take n l.

(** ** The trades store ([stores/trades.js]) *)

Inductive TradeType := long | short.
Inductive TradeStatus := status_open | status_closed.

#[global] Instance TradeType_eq_dec : EqDecision TradeType.
Proof. solve_decision. Defined.

(** A trade object.  The three last fields exist on closed trades only. *)
Record Trade := mkTrade {
  trade_id : string;
  trade_aiTrader : string;
  trade_asset : string;
  trade_type : TradeType;
  trade_entryPrice : Q;
  trade_size : Q;
  trade_timestamp : Z;
  trade_status : TradeStatus;
  trade_analysis : string;
  trade_stopLoss : Q;
  trade_takeProfit : Q;
  trade_exitPrice : option Q;
  trade_pnl : option Q;
  trade_closeTimestamp : option Z
}.

(** The argument object of [createTrade]. *)
Record Payload := mkPayload {
  p_traderId : string;
  p_asset : string;
  p_type : TradeType;
  p_entryPrice : Q;
  p_size : Q;
  p_analysis : string;
  p_timestamp : Z
}.

Record AnalysisNote := mkNote {
  note_id : string;
  note_aiTrader : string;
  note_summary : string;
  note_timestamp : Z
}.

Record TradesState := mkTrades {
  openPositions : list Trade;
  history : list Trade;
  analyses : list AnalysisNote
}.

Definition tradesInit : TradesState := mkTrades [] [] [].

(** The template literal [`${traderId}-${timestamp}`]. *)
Definition tradeIdOf (traderId : string) (timestamp : Z) : string :=
  traderId +:+ "-" +:+ pretty timestamp.

Definition buildTrade (p : Payload) : Trade :=
  {| trade_id := tradeIdOf (p_traderId p) (p_timestamp p);
     trade_aiTrader := p_traderId p;
     trade_asset := p_asset p;
     trade_type := p_type p;
     trade_entryPrice := p_entryPrice p;
     trade_size := p_size p;
     trade_timestamp := p_timestamp p;
     trade_status := status_open;
     trade_analysis := p_analysis p;
     trade_stopLoss :=
       toFixed2 (p_entryPrice p *
                 (if decide (p_type p = long) then 0.97 else 1.03));
     trade_takeProfit :=
       toFixed2 (p_entryPrice p *
                 (if decide (p_type p = long) then 1.03 else 0.97));
     trade_exitPrice := None;
     trade_pnl := None;
     trade_closeTimestamp := None |}.

(** Getter [lastAnalyses]: [state.analyses.slice(-8).reverse()]. *)
Definition lastAnalyses (s : TradesState) : list AnalysisNote :=
  reverse (sliceLast 8 (analyses s)).

(** Getter [groupedByTrader], as the list of one trader's open trades. *)
Definition openOf (traderId : string) (l : list Trade) : list Trade :=
  filter (λ t, trade_aiTrader t = traderId) l.

(** Action [createTrade]. *)
Definition createTrade (p : Payload) (s : TradesState) : Trade * TradesState :=
  let trade := buildTrade p in
  (trade,
   {| openPositions := openPositions s ++ [trade];
      history := history s;
      analyses := analyses s ++
        [ {| note_id := trade_id trade;
             note_aiTrader := p_traderId p;
             note_summary := p_analysis p;
             note_timestamp := p_timestamp p |} ] |}).

(** The profit or loss booked by [closeTrade]. *)
Definition realizedPnl (trade : Trade) (exitPrice : Q) : Q :=
  toFixed2
    (if decide (trade_type trade = long)
     then (exitPrice - trade_entryPrice trade) * trade_size trade
     else (trade_entryPrice trade - exitPrice) * trade_size trade).

(** The object [{ ...trade, status, exitPrice, pnl, closeTimestamp }]. *)
Definition closedOf (trade : Trade) (exitPrice : Q) (timestamp : Z) : Trade :=
  {| trade_id := trade_id trade;
     trade_aiTrader := trade_aiTrader trade;
     trade_asset := trade_asset trade;
     trade_type := trade_type trade;
     trade_entryPrice := trade_entryPrice trade;
     trade_size := trade_size trade;
     trade_timestamp := trade_timestamp trade;
     trade_status := status_closed;
     trade_analysis := trade_analysis trade;
     trade_stopLoss := trade_stopLoss trade;
     trade_takeProfit := trade_takeProfit trade;
     trade_exitPrice := Some (toFixed2 exitPrice);
     trade_pnl := Some (realizedPnl trade exitPrice);
     trade_closeTimestamp := Some timestamp |}.

(** Action [closeTrade]: [findIndex] gives the first open trade with the
    id; [None] is the [null] returned when there is none. *)
Definition closeTrade (tradeId : string) (exitPrice : Q) (timestamp : Z)
    (s : TradesState) : option Trade * TradesState :=
  match list_find (λ t, trade_id t = tradeId) (openPositions s) with
  | None => (None, s)
  | Some (index, trade) =>
      let closedTrade := closedOf trade exitPrice timestamp in
      (Some closedTrade,
       {| openPositions := delete index (openPositions s);
          history := sliceFirst 200 (closedTrade :: history s);
          analyses := analyses s |})
  end.

(** ** The market store ([stores/market.js]) *)

Record PricePoint := mkPoint { point_time : Z; point_price : Q }.

Record Asset := mkAsset {
  asset_symbol : string;
  asset_name : string;
  asset_price : Q;
  asset_history : list PricePoint
}.

Record MarketState := mkMarket { assets : list Asset; tick : Z }.

(** The entries [{ symbol, name, price }] of the snapshot returned by a tick. *)
Record Quote := mkQuote { quote_symbol : string; quote_name : string; quote_price : Q }.

Definition ASSETS : list (string * string * Q) :=
  [ ("BTC", "Bitcoin", 31500); ("ETH", "Ethereum", 2200);
    ("AAPL", "Apple", 189); ("TSLA", "Tesla", 172) ]%Q.

(** Initial state; [now] is the value of [Date.now()] when the store is made. *)
Definition marketInit (now : Z) : MarketState :=
  {| assets :=
       (λ a, match a with
             | (symbol, name, price) =>
                 mkAsset symbol name price [mkPoint now price]
             end) <$> ASSETS;
     tick := 0 |}.

(** Getter [assetsMap] (and the dashboard's [assetPriceMap]): a [reduce] that
    writes every asset under its symbol, a later asset replacing an earlier
    one of the same symbol. *)
Definition assetsMap (l : list Asset) : gmap string Asset :=
  foldl (λ acc a, <[asset_symbol a := a]> acc) ∅ l.

Section Market.
(** [random k] is the value of the [k]-th call of [Math.random()]. *)
Variable random : nat → Q.

(** [evolvePrice price], reading the random stream from position [k]; the
    fourth draw happens only when the third one is below 0.05. *)
Definition evolvePrice (price : Q) (k : nat) : Q * nat :=
  let drift := ((random k - 0.5) * 0.02)%Q in
  let volatility := (random (k + 1) * 0.015)%Q in
  let '(shock, k') :=
    if ltb (random (k + 2)) 0.05
    then (((random (k + 3) - 0.5) * 0.12)%Q, k + 4)
    else (0%Q, k + 3) in
  let next := (price * (1 + drift + volatility + shock))%Q in
  (max3 next (price * 0.5) 5, k').

(** The callback of [this.assets.map(...)] in [generateNextTick]. *)
Definition advanceAsset (timestamp : Z) (asset : Asset) (k : nat) : Asset * nat :=
  let '(evolved, k') := evolvePrice (asset_price asset) k in
  let nextPrice := toFixed2 evolved in
  let history := sliceLast 120 (asset_history asset) in
  let history := history ++ [mkPoint timestamp nextPrice] in
  (mkAsset (asset_symbol asset) (asset_name asset) nextPrice history, k').

Fixpoint advanceAssets (timestamp : Z) (l : list Asset) (k : nat)
    : list Asset * nat :=
  match l with
  | [] => ([], k)
  | asset :: rest =>
      let '(asset', k1) := advanceAsset timestamp asset k in
      let '(rest', k2) := advanceAssets timestamp rest k1 in
      (asset' :: rest', k2)
  end.

(** Action [generateNextTick]; [now] is its [Date.now()].  The result is the
    returned snapshot, the new store state and the new random cursor. *)
Definition generateNextTick (now : Z) (m : MarketState) (k : nat)
    : (Z * list Quote) * MarketState * nat :=
  let timestamp := now in
  let '(assets', k') := advanceAssets timestamp (assets m) k in
  ((timestamp,
    (λ a, mkQuote (asset_symbol a) (asset_name a) (asset_price a)) <$> assets'),
   {| assets := assets'; tick := tick m + 1 |},
   k').

End Market.

(** ** The traders store ([stores/traders.js]) *)

Inductive RiskTolerance := RiskAlta | RiskMedia | RiskBaja | RiskVariable.
Inductive AnalysisStyle := Tecnico | Fundamental | Mixta | Cuantitativa.

#[global] Instance RiskTolerance_eq_dec : EqDecision RiskTolerance.
Proof. solve_decision. Defined.

Record BalancePoint := mkBalancePoint { bp_time : Z; bp_balance : Q }.

Record Stats := mkStats {
  bestTrade : option Trade;
  worstTrade : option Trade;
  winRate : Q;
  totalTrades : Z;
  wins : Z;
  maxDrawdown : Q;
  peakBalance : Q
}.

(** A trader object: the strategy fields (the display-only [color] and
    [avatar] are left out) and the account. *)
Record Trader := mkTrader {
  trader_id : string;
  trader_name : string;
  riskTolerance : RiskTolerance;
  preferredAssets : list string;
  analysisStyle : AnalysisStyle;
  balance : Q;
  startOfDayBalance : Q;
  balanceHistory : list BalancePoint;
  lastAnalysis : string;
  stats : Stats
}.

(** [state.traders] is an object keyed by trader id; [traderOrder] is the
    order in which its keys were inserted, which is the order of
    [Object.values]. *)
Record TradersState := mkTraders {
  traders : gmap string Trader;
  traderOrder : list string
}.

Definition BASE_BALANCE : Q := 10000.

Definition strategies
    : list (string * string * RiskTolerance * list string * AnalysisStyle) :=
  [ ("grok", "Grok", RiskAlta, ["BTC"; "ETH"], Tecnico);
    ("claude", "Claude", RiskMedia, ["AAPL"; "TSLA"; "ETH"], Fundamental);
    ("chatgpt", "ChatGPT", RiskBaja, ["AAPL"; "TSLA"], Mixta);
    ("gemini", "Gemini", RiskVariable, ["BTC"; "ETH"; "TSLA"], Cuantitativa) ].

Definition newTrader (now : Z)
    (s : string * string * RiskTolerance * list string * AnalysisStyle) : Trader :=
  match s with
  | (id, name, risk, preferred, style) =>
      {| trader_id := id;
         trader_name := name;
         riskTolerance := risk;
         preferredAssets := preferred;
         analysisStyle := style;
         balance := BASE_BALANCE;
         startOfDayBalance := BASE_BALANCE;
         balanceHistory := [mkBalancePoint now BASE_BALANCE];
         lastAnalysis := "Inicializando estrategia...";
         stats := {| bestTrade := None; worstTrade := None; winRate := 0;
                     totalTrades := 0; wins := 0; maxDrawdown := 0;
                     peakBalance := BASE_BALANCE |} |}
  end.

(** Initial state: the [reduce] over [Object.values(strategies)]. *)
Definition tradersInit (now : Z) : TradersState :=
  foldl (λ acc s,
           let trader := newTrader now s in
           {| traders := <[trader_id trader := trader]> (traders acc);
              traderOrder :=
                if decide (trader_id trader ∈ traderOrder acc)
                then traderOrder acc
                else traderOrder acc ++ [trader_id trader] |})
        (mkTraders ∅ []) strategies.

(** Getter [traderList]: [Object.values(state.traders)]. *)
Definition traderList (s : TradersState) : list Trader :=
  omap (λ id, traders s !! id) (traderOrder s).

Definition withTrader (s : TradersState) (traderId : string) (t : Trader)
    : TradersState :=
  {| traders := <[traderId := t]> (traders s); traderOrder := traderOrder s |}.

(** Action [updateBalance(traderId, delta, meta)]; [metaTime] is [meta.time]
    and [now] the [Date.now()] used when it is absent. *)
Definition updateBalance (traderId : string) (delta : Q) (metaTime : option Z)
    (now : Z) (s : TradersState) : TradersState :=
  match traders s !! traderId with
  | None => s
  | Some trader =>
      let balance' := toFixed2 (balance trader + delta) in
      let pushed :=
        balanceHistory trader ++ [mkBalancePoint (default now metaTime) balance'] in
      let history' := sliceLast 240 pushed in
      let peak' := max2 (peakBalance (stats trader)) balance' in
      let drawdown := (peak' - balance')%Q in
      let maxDrawdown' := max2 (maxDrawdown (stats trader)) (toFixed2 drawdown) in
      withTrader s traderId
        {| trader_id := trader_id trader;
           trader_name := trader_name trader;
           riskTolerance := riskTolerance trader;
           preferredAssets := preferredAssets trader;
           analysisStyle := analysisStyle trader;
           balance := balance';
           startOfDayBalance := startOfDayBalance trader;
           balanceHistory := history';
           lastAnalysis := lastAnalysis trader;
           stats := {| bestTrade := bestTrade (stats trader);
                       worstTrade := worstTrade (stats trader);
                       winRate := winRate (stats trader);
                       totalTrades := totalTrades (stats trader);
                       wins := wins (stats trader);
                       maxDrawdown := maxDrawdown';
                       peakBalance := peak' |} |}
  end.

(** [(a ?? -Infinity) > (b ?? -Infinity)] and [(a ?? Infinity) < (b ?? Infinity)],
    an absent [pnl] being [None]. *)
Definition gtOrMinusInf (a b : option Q) : bool :=
  match a, b with
  | Some x, Some y => gtb x y
  | Some _, None => true
  | None, _ => false
  end.

Definition ltOrPlusInf (a b : option Q) : bool :=
  match a, b with
  | Some x, Some y => ltb x y
  | Some _, None => true
  | None, _ => false
  end.

(** [trade.pnl && trade.pnl > 0]. *)
Definition isWin (trade : Trade) : bool :=
  match trade_pnl trade with
  | Some pnl => gtb pnl 0
  | None => false
  end.

(** Action [registerTrade(traderId, trade)]. *)
Definition registerTrade (traderId : string) (trade : Trade) (s : TradersState)
    : TradersState :=
  match traders s !! traderId with
  | None => s
  | Some trader =>
      let st := stats trader in
      let totalTrades' := (totalTrades st + 1)%Z in
      let wins' := if isWin trade then (wins st + 1)%Z else wins st in
      let winRate' :=
        if decide (totalTrades' = 0%Z) then 0%Q
        else toFixed1 ((inject_Z wins' / inject_Z totalTrades') * 100)%Q in
      let bestTrade' :=
        match bestTrade st with
        | None => Some trade
        | Some best =>
            if gtOrMinusInf (trade_pnl trade) (trade_pnl best)
            then Some trade else Some best
        end in
      let worstTrade' :=
        match worstTrade st with
        | None => Some trade
        | Some worst =>
            if ltOrPlusInf (trade_pnl trade) (trade_pnl worst)
            then Some trade else Some worst
        end in
      withTrader s traderId
        {| trader_id := trader_id trader;
           trader_name := trader_name trader;
           riskTolerance := riskTolerance trader;
           preferredAssets := preferredAssets trader;
           analysisStyle := analysisStyle trader;
           balance := balance trader;
           startOfDayBalance := startOfDayBalance trader;
           balanceHistory := balanceHistory trader;
           lastAnalysis := lastAnalysis trader;
           stats := {| bestTrade := bestTrade';
                       worstTrade := worstTrade';
                       winRate := winRate';
                       totalTrades := totalTrades';
                       wins := wins';
                       maxDrawdown := maxDrawdown st;
                       peakBalance := peakBalance st |} |}
  end.

(** Action [setAnalysis(traderId, analysis)]. *)
Definition setAnalysis (traderId : string) (analysis : string) (s : TradersState)
    : TradersState :=
  match traders s !! traderId with
  | None => s
  | Some trader =>
      withTrader s traderId
        {| trader_id := trader_id trader;
           trader_name := trader_name trader;
           riskTolerance := riskTolerance trader;
           preferredAssets := preferredAssets trader;
           analysisStyle := analysisStyle trader;
           balance := balance trader;
           startOfDayBalance := startOfDayBalance trader;
           balanceHistory := balanceHistory trader;
           lastAnalysis := analysis;
           stats := stats trader |}
  end.

(** ** The orchestration ([components/TradingDashboard.vue]) *)

(** The three stores and the number of [Math.random()] calls made so far. *)
Record World := mkWorld {
  marketStore : MarketState;
  tradersStore : TradersState;
  tradesStore : TradesState;
  drawn : nat
}.

(** A computation either completes with a value or throws (a [TypeError]);
    in both cases the stores keep the mutations made so far. *)
Inductive Outcome (A : Type) :=
  | Done (a : A) (w : World)
  | Thrown (w : World).
Arguments Done {A} a w.
Arguments Thrown {A} w.

Definition worldOf {A} (o : Outcome A) : World :=
  match o with Done _ w => w | Thrown w => w end.

Definition Sim (A : Type) : Type := World → Outcome A.

Definition ret {A} (a : A) : Sim A := λ w, Done a w.

Definition bind {A B} (m : Sim A) (f : A → Sim B) : Sim B :=
  λ w, match m w with
       | Done a w' => f a w'
       | Thrown w' => Thrown w'
       end.

Definition throw {A} : Sim A := λ w, Thrown w.

Declare Scope sim_scope.
Delimit Scope sim_scope with sim.
Notation "'let*' x ':=' m 'in' k" := (bind m (λ x, k))
  (at level 10, x name, m at level 100, k at level 200) : sim_scope.
Notation "m ;; k" := (bind m (λ _, k))
  (at level 100, k at level 200, right associativity) : sim_scope.
Bind Scope sim_scope with Sim.

Definition getWorld : Sim World := λ w, Done w w.

Definition onTrades {A} (f : TradesState → A * TradesState) : Sim A :=
  λ w, let '(a, s) := f (tradesStore w) in
       Done a (mkWorld (marketStore w) (tradersStore w) s (drawn w)).

Definition onTraders (f : TradersState → TradersState) : Sim unit :=
  λ w, Done tt (mkWorld (marketStore w) (f (tradersStore w)) (tradesStore w)
                        (drawn w)).

(** [array.forEach(f)]. *)
Fixpoint forEach {A} (f : A → Sim unit) (l : list A) : Sim unit :=
  match l with
  | [] => ret tt
  | x :: rest => (f x ;; forEach f rest)%sim
  end.

(** [array[i]] for an integer [i]: [undefined] outside the array. *)
Definition at_index {A} (l : list A) (i : Z) : option A :=
  if (i <? 0)%Z then None else l !! Z.to_nat i.

Definition riskSizeMap (r : RiskTolerance) : Q :=
  match r with
  | RiskAlta => 1.8
  | RiskMedia => 1.2
  | RiskBaja => 0.8
  | RiskVariable => 1.5
  end.

Definition rationale (s : AnalysisStyle) : string :=
  match s with
  | Tecnico => "ruptura de media móvil y momentum positivo"
  | Fundamental => "noticias macro favorables y sólidos fundamentales"
  | Mixta => "confluencia de indicadores técnicos y sentimiento del mercado"
  | Cuantitativa => "señal estadística con alta probabilidad"
  end.

Section Dashboard.
Variable random : nat → Q.
(** The string a template literal makes of a number. *)
Variable numberToString : Q → string.

(** One call of [Math.random()]. *)
Definition rand : Sim Q :=
  λ w, Done (random (drawn w))
            (mkWorld (marketStore w) (tradersStore w) (tradesStore w)
                     (S (drawn w))).

(** [selectAsset(trader)]; [None] is [undefined]. *)
Definition selectAsset (trader : Trader) : Sim (option Asset) :=
  (let* w := getWorld in
   let preferred := preferredAssets trader in
   let pool := filter (λ a, asset_symbol a ∈ preferred) (assets (marketStore w)) in
   let candidates := if decide (length pool = 0) then assets (marketStore w) else pool in
   let* r := rand in
   ret (at_index candidates (floor (r * inject_Z (Z.of_nat (length candidates))))))%sim.

Definition buildAnalysis (trader : Trader) (asset : Asset) (type : TradeType)
    (price : Q) : string :=
  let sentiment :=
    if decide (type = long) then "sesgo alcista" else "sesgo bajista" in
  trader_name trader +:+ " detecta " +:+ sentiment +:+ " en "
    +:+ asset_symbol asset +:+ " a " +:+ numberToString price
    +:+ ". Basado en " +:+ rationale (analysisStyle trader) +:+ ".".

(** [maybeOpenTrade(trader, timestamp)].  Reading [asset.price] throws when
    [selectAsset] gave [undefined]. *)
Definition maybeOpenTrade (trader : Trader) (timestamp : Z) : Sim unit :=
  (let* w := getWorld in
   let active := openOf (trader_id trader) (openPositions (tradesStore w)) in
   if decide (3 ≤ length active) then ret tt else
   let* r := rand in
   let shouldTrade := ltb r 0.4 in
   if negb shouldTrade then ret tt else
   let* selected := selectAsset trader in
   let* r := rand in
   let size := toFixed2 (riskSizeMap (riskTolerance trader) * (r * 0.6 + 0.4)) in
   let* r := rand in
   let type := if gtb r 0.5 then long else short in
   match selected with
   | None => throw
   | Some asset =>
       let price := asset_price asset in
       let analysis := buildAnalysis trader asset type price in
       let* _ := onTrades (createTrade
              {| p_traderId := trader_id trader;
                 p_asset := asset_symbol asset;
                 p_type := type;
                 p_entryPrice := price;
                 p_size := size;
                 p_analysis := analysis;
                 p_timestamp := timestamp |}) in
       onTraders (setAnalysis (trader_id trader) analysis)
   end)%sim.

(** The body of the [forEach] in [maybeCloseTrades].  [Math.random()] is
    called only when neither bracket is hit.  A closed trade always carries
    its [pnl], so the last branch is never taken. *)
Definition maybeCloseOne (trader : Trader) (timestamp : Z)
    (currentPrices : gmap string Asset) (trade : Trade) : Sim unit :=
  (let price :=
     match currentPrices !! trade_asset trade with
     | Some asset => asset_price asset
     | None => trade_entryPrice trade
     end in
   let hitTp :=
     if decide (trade_type trade = long)
     then geb price (trade_takeProfit trade)
     else leb price (trade_takeProfit trade) in
   let hitSl :=
     if decide (trade_type trade = long)
     then leb price (trade_stopLoss trade)
     else geb price (trade_stopLoss trade) in
   let holdProbability :=
     if decide (riskTolerance trader = RiskBaja) then 0.2%Q else 0.35%Q in
   let* shouldClose :=
     (if hitTp || hitSl then ret true
      else (let* r := rand in ret (gtb r holdProbability))) in
   if negb shouldClose then ret tt else
   let* closed := onTrades (closeTrade (trade_id trade) price timestamp) in
   match closed with
   | None => ret tt
   | Some closedTrade =>
       match trade_pnl closedTrade with
       | Some pnl =>
           let* _ := onTraders (updateBalance (trader_id trader) pnl (Some timestamp)
                            timestamp) in
           let* _ := onTraders (registerTrade (trader_id trader) closedTrade) in
           let summary :=
             trader_name trader +:+ " cierra " +:+ trade_asset trade
               +:+ " con P&L de $" +:+ toFixed2String pnl +:+ "." in
           onTraders (setAnalysis (trader_id trader) summary)
       | None => throw
       end
   end)%sim.

(** [maybeCloseTrades(trader, timestamp)]: the loop runs over the array
    that [filter] made before the first iteration. *)
Definition maybeCloseTrades (trader : Trader) (timestamp : Z) : Sim unit :=
  (let* w := getWorld in
   let currentPrices := assetsMap (assets (marketStore w)) in
   forEach (maybeCloseOne trader timestamp currentPrices)
           (openOf (trader_id trader) (openPositions (tradesStore w))))%sim.

(** The market store's [generateNextTick], run on the world. *)
Definition marketTick (now : Z) : Sim (Z * list Quote) :=
  λ w, let '(snapshot, m, k) := generateNextTick random now (marketStore w) (drawn w) in
       Done snapshot (mkWorld m (tradersStore w) (tradesStore w) k).

(** [runSimulationTick()]; [now] is the [Date.now()] of its market tick. *)
Definition runSimulationTick (now : Z) : Sim unit :=
  (let* snapshot := marketTick now in
   let timestamp := snapshot.1 in
   let* w := getWorld in
   forEach (λ trader,
              maybeCloseTrades trader timestamp ;;
              maybeOpenTrade trader timestamp)
           (traderList (tradersStore w)))%sim.

(** The stores as they are created; [t0] is the time of creation. *)
Definition worldInit (t0 : Z) : World :=
  mkWorld (marketInit t0) (tradersInit t0) tradesInit 0.

(** [onMounted]: one market tick, then one simulation tick; [setInterval]
    then runs [runSimulationTick] again and again. *)
Definition onMounted (now1 now2 : Z) : Sim unit :=
  (let* _ := marketTick now1 in runSimulationTick now2)%sim.

(** The world after [onMounted] and the simulation ticks at times [nows].
    A tick that throws leaves the stores as they are at that point, and the
    timer runs the next one all the same. *)
Definition runTicks (nows : list Z) (w : World) : World :=
  foldl (λ w now, worldOf (runSimulationTick now w)) w nows.

End Dashboard.
(** ** Definitions used by the statements *)

(** Sequences of ledger operations, run from the empty ledger. *)
Inductive LedgerOp :=
  | OpCreate (p : Payload)
  | OpClose (tradeId : string) (exitPrice : Q) (timestamp : Z).

Definition applyLedgerOp (s : TradesState) (op : LedgerOp) : TradesState :=
  match op with
  | OpCreate p => (createTrade p s).2
  | OpClose tradeId exitPrice timestamp => (closeTrade tradeId exitPrice timestamp s).2
  end.

Definition runLedger (ops : list LedgerOp) : TradesState :=
  foldl applyLedgerOp tradesInit ops.

(** The 3% bracket, rounded to cents, of a trade's own entry price. *)
Definition bracketsOk (t : Trade) : Prop :=
  trade_stopLoss t =
    toFixed2 (trade_entryPrice t *
              match trade_type t with long => 0.97 | short => 1.03 end) ∧
  trade_takeProfit t =
    toFixed2 (trade_entryPrice t *
              match trade_type t with long => 1.03 | short => 0.97 end).

(** A payload and a one-trade ledger for the examples. *)
Definition examplePayload (entryPrice size : Q) (type : TradeType) : Payload :=
  {| p_traderId := "grok"; p_asset := "BTC"; p_type := type;
     p_entryPrice := entryPrice; p_size := size;
     p_analysis := "nota"; p_timestamp := 1000 |}.

(** The ledger holding the single open trade made from a payload. *)
Definition ledgerWith (p : Payload) : TradesState := (createTrade p tradesInit).2.


(** Sequences of registry operations, run from the initial registry. *)
Inductive RegistryOp :=
  | OpAdjust (traderId : string) (delta : Q) (metaTime : option Z) (now : Z)
  | OpRecord (traderId : string) (trade : Trade)
  | OpSetAnalysis (traderId : string) (analysis : string).

Definition applyRegistryOp (s : TradersState) (op : RegistryOp) : TradersState :=
  match op with
  | OpAdjust traderId delta metaTime now => updateBalance traderId delta metaTime now s
  | OpRecord traderId trade => registerTrade traderId trade s
  | OpSetAnalysis traderId analysis => setAnalysis traderId analysis s
  end.

Definition runRegistry (t0 : Z) (ops : list RegistryOp) : TradersState :=
  foldl applyRegistryOp (tradersInit t0) ops.

(** The statistics of a trader are consistent: the wins are among the
    recorded trades and the win rate is a percentage. *)
Definition statsOk (st : Stats) : Prop :=
  (0 ≤ wins st ≤ totalTrades st)%Z ∧ (0 <= winRate st <= 100)%Q.

(** A winning closed trade and a short run of registry operations for the
    examples. *)
Definition exampleClosed : Trade :=
  closedOf (buildTrade (examplePayload 100 1 long)) 103 2000.

Definition exampleRegistryOps : list RegistryOp :=
  [ OpAdjust "grok" 3 (Some 2000%Z) 2000; OpRecord "grok" exampleClosed ].

(** One market tick on the pair of the market store and the random cursor,
    and the ticks at times [nows] from the initial store made at [t0]. *)
Definition marketStep (random : nat → Q) (st : MarketState * nat) (now : Z)
    : MarketState * nat :=
  let '(_, m, k) := generateNextTick random now st.1 st.2 in (m, k).

Definition marketRun (random : nat → Q) (t0 : Z) (nows : list Z)
    : MarketState * nat :=
  foldl (marketStep random) (marketInit t0, 0) nows.

(** A random stream as [Math.random()] gives it: every value in [0, 1). *)
Definition inUnitInterval (random : nat → Q) : Prop :=
  ∀ k, (0 <= random k < 1)%Q.

(** A constant random stream and 120 tick times for the examples. *)
Definition exampleRandom : nat → Q := λ _, 0.5%Q.
Definition exampleTicks : list Z := replicate 120 1500%Z.

(** The world after [onMounted] (market tick at [now1], simulation tick at
    [now2]) and the timer's simulation ticks at times [nows]. *)
Definition simulation (random : nat → Q) (numberToString : Q → string)
    (t0 now1 now2 : Z) (nows : list Z) : World :=
  runTicks random numberToString nows
    (worldOf (onMounted random numberToString now1 now2 (worldInit t0))).

(** The number of open positions that a trader holds. *)
Definition openCount (traderId : string) (w : World) : nat :=
  length (openOf traderId (openPositions (tradesStore w))).

(** A computation keeps a property of the world, whether it completes or
    throws. *)
Definition preserves {A} (J : World → Prop) (m : Sim A) : Prop :=
  ∀ w, J w → J (worldOf (m w)).

(** A property of the world that does not look at the random cursor. *)
Definition cursorFree (J : World → Prop) : Prop :=
  ∀ w k, J w → J (mkWorld (marketStore w) (tradersStore w) (tradesStore w) k).

(** The bound on open positions per trader, as a property of the world. *)
Definition atMostThree (w : World) : Prop := ∀ traderId, openCount traderId w ≤ 3.

(** A number that is equal to its own rounding to 2 decimals. *)
Definition isRounded (x : Q) : Prop := toFixed2 x == x.

(** Every asset price and every entry price held by the world is rounded. *)
Definition pricesRounded (w : World) : Prop :=
  Forall (λ a, isRounded (asset_price a)) (assets (marketStore w)) ∧
  Forall (λ t, isRounded (trade_entryPrice t)) (openPositions (tradesStore w)) ∧
  Forall (λ t, isRounded (trade_entryPrice t)) (history (tradesStore w)).

(** A random stream under which every trader opens a short position at
    each tick and closes none, and the world it gives after three ticks. *)
Definition steadyRandom : nat → Q := λ _, 0.3%Q.

Definition exampleWorld : World :=
  simulation steadyRandom toFixed2String 0 1000 2000 [3000; 4000]%Z.

Definition exampleTrader : Trader :=
  newTrader 0 ("grok", "Grok", RiskAlta, ["BTC"; "ETH"], Tecnico).

(** ** Further getters and computed values of the source *)



(** The price the dashboard uses for a trade: [currentPrices[trade.asset]?.price
    ?? trade.entryPrice]. *)
Definition currentPriceOf (currentPrices : gmap string Asset) (trade : Trade) : Q :=
  match currentPrices !! trade_asset trade with
  | Some asset => asset_price asset
  | None => trade_entryPrice trade
  end.

(** The dashboard's [tradesForTable]: the open trades, each with its
    unrealized [pnl] at the current price, followed by the closed-trade
    log. *)
Definition tradesForTable (w : World) : list Trade :=
  let currentPrices := assetsMap (assets (marketStore w)) in
  ((λ trade,
      let price := currentPriceOf currentPrices trade in
      let pnl :=
        if decide (trade_type trade = long)
        then ((price - trade_entryPrice trade) * trade_size trade)%Q
        else ((trade_entryPrice trade - price) * trade_size trade)%Q in
      {| trade_id := trade_id trade;
         trade_aiTrader := trade_aiTrader trade;
         trade_asset := trade_asset trade;
         trade_type := trade_type trade;
         trade_entryPrice := trade_entryPrice trade;
         trade_size := trade_size trade;
         trade_timestamp := trade_timestamp trade;
         trade_status := trade_status trade;
         trade_analysis := trade_analysis trade;
         trade_stopLoss := trade_stopLoss trade;
         trade_takeProfit := trade_takeProfit trade;
         trade_exitPrice := trade_exitPrice trade;
         trade_pnl := Some (toFixed2 pnl);
         trade_closeTimestamp := trade_closeTimestamp trade |})
     <$> openPositions (tradesStore w))
  ++ history (tradesStore w).

(** ** Further definitions used by the statements *)

(** No two trades of the list carry the same id. *)
Definition uniqueIds (l : list Trade) : Prop := NoDup (trade_id <$> l).


Definition recorded (traderId : string) (ops : list RegistryOp) : list Trade :=
  omap (λ op, match op with
              | OpRecord id trade =>
                  if decide (id = traderId) then Some trade else None
              | _ => None
              end) ops.

Definition sumQ (l : list Q) : Q := foldr Qplus 0%Q l.

(** The account of a trader is consistent: balance and peak are rounded,
    the peak is not below the balance, the maximum drawdown is not below
    the present gap between them, and the balance history ends with the
    present balance. *)
Definition accountOk (trader : Trader) : Prop :=
  isRounded (balance trader) ∧
  isRounded (peakBalance (stats trader)) ∧
  (balance trader <= peakBalance (stats trader))%Q ∧
  (peakBalance (stats trader) - balance trader <= maxDrawdown (stats trader))%Q ∧
  (0 <= maxDrawdown (stats trader))%Q ∧
  (bp_balance <$> last (balanceHistory trader)) = Some (balance trader) ∧
  startOfDayBalance trader = BASE_BALANCE.

(** The trader that a registry operation names. *)
Definition opTarget (op : RegistryOp) : string :=
  match op with
  | OpAdjust traderId _ _ _ => traderId
  | OpRecord traderId _ => traderId
  | OpSetAnalysis traderId _ => traderId
  end.

(** The strategy of a trader: the fields that no action writes. *)
Definition strategyOf (t : Trader)
    : string * string * RiskTolerance * list string * AnalysisStyle * Q :=
  (trader_id t, trader_name t, riskTolerance t, preferredAssets t,
   analysisStyle t, startOfDayBalance t).

(** The four statistics that [registerTrade] maintains. *)
Definition tally (st : Stats) : option Trade * option Trade * Z * Z :=
  (bestTrade st, worstTrade st, totalTrades st, wins st).

(** The tally after [registerTrade] has seen one more trade. *)
Definition tallyWith (trade : Trade) (st : Stats)
    : option Trade * option Trade * Z * Z :=
  (match bestTrade st with
   | None => Some trade
   | Some best =>
       if gtOrMinusInf (trade_pnl trade) (trade_pnl best) then Some trade else Some best
   end,
   match worstTrade st with
   | None => Some trade
   | Some worst =>
       if ltOrPlusInf (trade_pnl trade) (trade_pnl worst) then Some trade else Some worst
   end,
   (totalTrades st + 1)%Z,
   if isWin trade then (wins st + 1)%Z else wins st).

(** The tally agrees with the list of the trades registered so far. *)
Definition tallyOk (st : Stats) (trades : list Trade) : Prop :=
  totalTrades st = Z.of_nat (length trades) ∧
  wins st = Z.of_nat (length (filter (λ t, isWin t = true) trades)) ∧
  match bestTrade st with
  | None => trades = []
  | Some best =>
      best ∈ trades ∧
      ∀ t, t ∈ trades → gtOrMinusInf (trade_pnl t) (trade_pnl best) = false
  end ∧
  match worstTrade st with
  | None => trades = []
  | Some worst =>
      worst ∈ trades ∧
      ∀ t, t ∈ trades → ltOrPlusInf (trade_pnl t) (trade_pnl worst) = false
  end.

(** A computation completes, without throwing, from every world that
    satisfies [J], and leaves a world that satisfies [J]. *)
Definition completes {A} (J : World → Prop) (m : Sim A) : Prop :=
  ∀ w, J w → ∃ a w', m w = Done a w' ∧ J w'.

(** The market lists at least one asset. *)
Definition hasAssets (w : World) : Prop := assets (marketStore w) ≠ [].

(** A bracket of the trade is hit at the given price: the take profit or
    the stop loss is reached, in the direction of the trade. *)
Definition bracketHit (price : Q) (t : Trade) : Prop :=
  match trade_type t with
  | long => (trade_takeProfit t <= price ∨ price <= trade_stopLoss t)%Q
  | short => (price <= trade_takeProfit t ∨ trade_stopLoss t <= price)%Q
  end.

(** The market store after [n] ticks: the tick counter is [n], the assets
    are the four initial ones in order, and every history holds
    [min (n + 1) 121] points. *)
Definition marketAfter (n : nat) (m : MarketState) : Prop :=
  tick m = Z.of_nat n ∧
  asset_symbol <$> assets m = ["BTC"; "ETH"; "AAPL"; "TSLA"] ∧
  Forall (λ a, length (asset_history a) = Nat.min (S n) 121) (assets m).

(** A world whose market lists no asset, for the examples. *)
Definition emptyMarketWorld : World :=
  mkWorld (mkMarket [] 0) (tradersInit 0) tradesInit 0.

(** The ledger and the registry of the world are states that sequences of
    store actions produce from the initial stores. *)
Definition storesReachable (t0 : Z) (w : World) : Prop :=
  (∃ ops, tradesStore w = runLedger ops) ∧
  (∃ ops, tradersStore w = runRegistry t0 ops).

(** The ids of the four traders. *)
Definition traderIds : list string := ["grok"; "claude"; "chatgpt"; "gemini"].

(** The open trades are stamped up to time [T]: their ids are distinct,
    each id is made of the trade's own trader and timestamp, the trader is
    one of the four, and the timestamp is before [T], or is [T] for a
    trader listed in [served]. *)
Definition stamped (T : Z) (served : list string) (l : list Trade) : Prop :=
  uniqueIds l ∧
  Forall (λ t, trade_id t = tradeIdOf (trade_aiTrader t) (trade_timestamp t) ∧
               trade_aiTrader t ∈ traderIds ∧
               ((trade_timestamp t < T)%Z ∨
                (trade_timestamp t = T ∧ trade_aiTrader t ∈ served))) l.

(** The booked pnl of a trade of the history, and the closed trades of one
    trader, newest first. *)
Definition pnlOf (t : Trade) : Q := default 0%Q (trade_pnl t).

Definition closedBy (traderId : string) (w : World) : list Trade :=
  filter (λ t, trade_aiTrader t = traderId) (history (tradesStore w)).

(** The books balance: as long as the history has not reached its bound of
    200 trades, every trader's balance is 10000 plus the pnl of its closed
    trades, and its counters count them. *)
Definition booksBalanced (w : World) : Prop :=
  length (history (tradesStore w)) < 200 →
  ∀ id trader, traders (tradersStore w) !! id = Some trader →
    (balance trader == 10000 + sumQ (pnlOf <$> closedBy id w))%Q ∧
    totalTrades (stats trader) = Z.of_nat (length (closedBy id w)) ∧
    wins (stats trader) =
      Z.of_nat (length (filter (λ t, isWin t = true) (closedBy id w))).

(** A random stream under which trades are opened and closed, and the world
    it gives after seven simulation ticks. *)
Definition mixedRandom : nat → Q :=
  λ k, (Z.of_nat ((k * 7919 + 13) mod 1000) # 1000)%Q.

Definition busyWorld : World :=
  simulation mixedRandom toFixed2String 0 1000 2000
    [3000; 4000; 5000; 6000; 7000; 8000]%Z.

(** The invariant of the running application at time [T]. *)
Definition ticking (t0 T : Z) (served : list string) (w : World) : Prop :=
  stamped T served (openPositions (tradesStore w)) ∧
  storesReachable t0 w ∧ booksBalanced w.

(** An open trade carries no closing data; a closed trade carries all of
    it. *)
Definition isOpen (t : Trade) : Prop :=
  trade_status t = status_open ∧ trade_exitPrice t = None ∧
  trade_pnl t = None ∧ trade_closeTimestamp t = None.

Definition isClosed (t : Trade) : Prop :=
  trade_status t = status_closed ∧ is_Some (trade_exitPrice t) ∧
  is_Some (trade_pnl t) ∧ is_Some (trade_closeTimestamp t).

(** A trade as the orchestrator makes them: entered at a price of at least
    5, with a size between 0.32 and 1.8. *)
Definition tradeSane (t : Trade) : Prop :=
  (5 <= trade_entryPrice t)%Q ∧ (0.32 <= trade_size t <= 1.8)%Q.

Definition worldSane (w : World) : Prop :=
  Forall (λ a, (5 <= asset_price a)%Q) (assets (marketStore w)) ∧
  Forall tradeSane (openPositions (tradesStore w)) ∧
  Forall tradeSane (history (tradesStore w)).
(** ** Facts about rounding *)

Section Rounding.
Local Open Scope Q_scope.

Lemma ltb_lt x y : ltb x y = true ↔ x < y.
Proof.
  unfold ltb. rewrite negb_true_iff, <- not_true_iff_false, Qle_bool_iff.
  split; [apply Qnot_le_lt | apply Qlt_not_le].
Qed.

Lemma leb_le x y : leb x y = true ↔ x <= y.
Proof. apply Qle_bool_iff. Qed.

Lemma gtb_lt x y : gtb x y = true ↔ y < x.
Proof. apply ltb_lt. Qed.

Lemma Qfloor_lower (n : Z) x : inject_Z n <= x → (n ≤ Qfloor x)%Z.
Proof. intros H. rewrite <- (Qfloor_Z n). by apply Qfloor_resp_le. Qed.

Lemma roundHalfAway_nonneg x :
  0 <= x → roundHalfAway x = Qfloor (x + (1 # 2)).
Proof.
  intros H. unfold roundHalfAway.
  by destruct (Qle_bool 0 x) eqn:E; [| apply Qle_bool_iff in H; congruence].
Qed.

Lemma roundHalfAway_neg x :
  x < 0 → roundHalfAway x = (- Qfloor (- x + (1 # 2)))%Z.
Proof.
  intros H. unfold roundHalfAway.
  destruct (Qle_bool 0 x) eqn:E; [| done].
  apply Qle_bool_iff in E. lra.
Qed.

(** The rounded integer is within one half of the number. *)
Lemma roundHalfAway_near x :
  x - (1 # 2) <= inject_Z (roundHalfAway x) <= x + (1 # 2).
Proof.
  destruct (Qlt_le_dec x 0) as [Hx | Hx].
  - rewrite (roundHalfAway_neg x Hx), inject_Z_opp.
    pose proof (Qfloor_le (- x + (1 # 2))) as H1.
    pose proof (Qlt_floor (- x + (1 # 2))) as H2.
    rewrite inject_Z_plus in H2. change (inject_Z 1) with 1 in H2. lra.
  - rewrite (roundHalfAway_nonneg x Hx).
    pose proof (Qfloor_le (x + (1 # 2))) as H1.
    pose proof (Qlt_floor (x + (1 # 2))) as H2.
    rewrite inject_Z_plus in H2. change (inject_Z 1) with 1 in H2. lra.
Qed.

#[global] Instance roundHalfAway_proper : Proper (Qeq ==> eq) roundHalfAway.
Proof.
  intros x y E. unfold roundHalfAway.
  rewrite (Qleb_comp 0 0 (Qeq_refl 0) x y E).
  destruct (Qle_bool 0 y); [apply Qfloor_comp | f_equal; apply Qfloor_comp];
    by rewrite E.
Qed.

Lemma roundHalfAway_mono x y : x <= y → (roundHalfAway x ≤ roundHalfAway y)%Z.
Proof.
  intros Hxy.
  destruct (Qlt_le_dec x 0) as [Hx | Hx]; destruct (Qlt_le_dec y 0) as [Hy | Hy].
  - rewrite (roundHalfAway_neg x Hx), (roundHalfAway_neg y Hy).
    apply Z.opp_le_mono. rewrite !Z.opp_involutive.
    apply Qfloor_resp_le. lra.
  - rewrite (roundHalfAway_neg x Hx), (roundHalfAway_nonneg y Hy).
    assert (0 ≤ Qfloor (- x + (1 # 2)))%Z
      by (apply Qfloor_lower; change (inject_Z 0) with 0; lra).
    assert (0 ≤ Qfloor (y + (1 # 2)))%Z
      by (apply Qfloor_lower; change (inject_Z 0) with 0; lra).
    lia.
  - lra.
  - rewrite (roundHalfAway_nonneg x Hx), (roundHalfAway_nonneg y Hy).
    apply Qfloor_resp_le. lra.
Qed.

Lemma roundHalfAway_Z (n : Z) : roundHalfAway (inject_Z n) = n.
Proof.
  pose proof (roundHalfAway_near (inject_Z n)) as [H1 H2].
  set (r := roundHalfAway (inject_Z n)) in *.
  assert (inject_Z (r - 1) < inject_Z n) as Ha.
  { unfold Z.sub. rewrite inject_Z_plus, inject_Z_opp.
    change (inject_Z 1) with 1. lra. }
  assert (inject_Z (n - 1) < inject_Z r) as Hb.
  { unfold Z.sub. rewrite inject_Z_plus, inject_Z_opp.
    change (inject_Z 1) with 1. lra. }
  rewrite <- Zlt_Qlt in Ha, Hb. lia.
Qed.

Lemma Qmake_scale (n : Z) (p : positive) : n # p == inject_Z n * (1 # p).
Proof. unfold Qeq, inject_Z. simpl. lia. Qed.

Lemma scale_cancel (n : Z) (p : positive) : (n # p) * (Zpos p # 1) == inject_Z n.
Proof. unfold Qeq, inject_Z. simpl. lia. Qed.

#[global] Instance toFixed_proper scale : Proper (Qeq ==> eq) (toFixed scale).
Proof. intros x y E. unfold toFixed. by rewrite E. Qed.

(** A number that already has the requested decimals is left as it is. *)
Lemma toFixed_grid scale (n : Z) : toFixed scale (n # scale) = (n # scale).
Proof. unfold toFixed. by rewrite scale_cancel, roundHalfAway_Z. Qed.

Lemma toFixed_idem scale x : toFixed scale (toFixed scale x) = toFixed scale x.
Proof. unfold toFixed at 2 3. apply toFixed_grid. Qed.

Lemma toFixed2_idem x : toFixed2 (toFixed2 x) = toFixed2 x.
Proof. apply toFixed_idem. Qed.

Lemma toFixed_mono scale x y : x <= y → toFixed scale x <= toFixed scale y.
Proof.
  intros H. unfold toFixed, Qle. simpl.
  apply Z.mul_le_mono_nonneg_r; [lia |].
  apply roundHalfAway_mono.
  apply Qmult_le_compat_r; [done | unfold Qle; simpl; lia].
Qed.

Lemma toFixed2_near x : x - 0.005 <= toFixed2 x <= x + 0.005.
Proof.
  unfold toFixed2, toFixed.
  pose proof (roundHalfAway_near (x * (100 # 1))) as H.
  rewrite (Qmake_scale (roundHalfAway _) 100). lra.
Qed.

Lemma toFixed2_pos x : 0 < toFixed2 x ↔ 0.005 <= x.
Proof.
  unfold toFixed2, toFixed.
  assert (∀ n : Z, 0 < n # 100 ↔ (1 ≤ n)%Z) as Hpos.
  { intros n. unfold Qlt. simpl. lia. }
  rewrite Hpos. split.
  - intros H. destruct (Qlt_le_dec (x * (100 # 1)) 0) as [Hx | Hx].
    + rewrite (roundHalfAway_neg _ Hx) in H.
      assert (0 ≤ Qfloor (- (x * (100 # 1)) + (1 # 2)))%Z
        by (apply Qfloor_lower; change (inject_Z 0) with 0; lra).
      lia.
    + rewrite (roundHalfAway_nonneg _ Hx) in H.
      pose proof (Qfloor_le (x * (100 # 1) + (1 # 2))) as H1.
      rewrite Zle_Qle in H. change (inject_Z 1) with 1 in H. lra.
  - intros H. rewrite roundHalfAway_nonneg by lra.
    apply Qfloor_lower. change (inject_Z 1) with 1. lra.
Qed.


End Rounding.

(** ** Facts about the array helpers *)

Lemma sliceLast_length {A} n (l : list A) : length (sliceLast n l) = Nat.min n (length l).
Proof. unfold sliceLast. rewrite length_drop. lia. Qed.


(** [slice(-n).reverse()] is the first [n] elements of the reversed array. *)
Lemma reverse_sliceLast {A} n (l : list A) :
  reverse (sliceLast n l) = take n (reverse l).
Proof. unfold sliceLast. symmetry. apply take_reverse. Qed.

(** ** The trades store: what [createTrade] and [closeTrade] do *)

Lemma closeTrade_found s tradeId exitPrice timestamp index trade :
  list_find (λ t, trade_id t = tradeId) (openPositions s) = Some (index, trade) →
  closeTrade tradeId exitPrice timestamp s =
    (Some (closedOf trade exitPrice timestamp),
     {| openPositions := delete index (openPositions s);
        history := sliceFirst 200 (closedOf trade exitPrice timestamp :: history s);
        analyses := analyses s |}).
Proof. intros H. unfold closeTrade. by rewrite H. Qed.

Lemma closeTrade_missing s tradeId exitPrice timestamp :
  list_find (λ t, trade_id t = tradeId) (openPositions s) = None →
  closeTrade tradeId exitPrice timestamp s = (None, s).
Proof. intros H. unfold closeTrade. by rewrite H. Qed.

(** Whatever [closeTrade] returns, the analyses are left alone, the open
    positions only lose elements, and the log holds at most 200 trades
    once the call has added one. *)
Lemma closeTrade_analyses s tradeId exitPrice timestamp :
  analyses (closeTrade tradeId exitPrice timestamp s).2 = analyses s.
Proof. unfold closeTrade. by repeat case_match. Qed.

Lemma closeTrade_open_sublist s tradeId exitPrice timestamp :
  sublist (openPositions (closeTrade tradeId exitPrice timestamp s).2) (openPositions s).
Proof.
  unfold closeTrade. repeat case_match; simpl; [| done].
  apply sublist_delete.
Qed.


Lemma closeTrade_pnl s tradeId exitPrice timestamp closedTrade s' :
  closeTrade tradeId exitPrice timestamp s = (Some closedTrade, s') →
  ∃ trade, trade ∈ openPositions s ∧ trade_id trade = tradeId ∧
           closedTrade = closedOf trade exitPrice timestamp.
Proof.
  unfold closeTrade. destruct (list_find _ _) as [[index trade] |] eqn:E; [| done].
  intros [= <- <-]. apply list_find_Some in E as (Hl & Hid & _).
  exists trade. split_and!; [by eapply list_elem_of_lookup_2 | done | done].
Qed.


(** ** Claims about the trades store *)

(** C2, as stated, fails: a successful [closeTrade] appends no note; the
    analyses log is the same before and after. *)
Lemma C2_close_appends_no_note :
  let s := ledgerWith (examplePayload 100 1 long) in
  ∃ closedTrade s',
    closeTrade "grok-1000" 103 2000 s = (Some closedTrade, s') ∧
    length (analyses s) = 1 ∧
    ¬ (∃ note, analyses s' = analyses s ++ [note]).
Proof.
  eexists _, _. split; [by vm_compute |]. split; [done |].
  intros [note H]. by apply (f_equal length) in H.
Qed.

(** C2, amended: [createTrade] appends one note, whose id is the id of the
    new trade; [closeTrade] never touches the analyses log; [lastAnalyses]
    gives the most recent notes, newest first, and at most 8 of them. *)
Theorem C2_analysis_notes (s : TradesState) :
  (∀ p, ∃ note,
      analyses (createTrade p s).2 = analyses s ++ [note] ∧
      note_id note = trade_id (createTrade p s).1 ∧
      note_aiTrader note = p_traderId p ∧
      note_summary note = p_analysis p ∧
      note_timestamp note = p_timestamp p) ∧
  (∀ tradeId exitPrice timestamp,
      analyses (closeTrade tradeId exitPrice timestamp s).2 = analyses s) ∧
  lastAnalyses s = take 8 (reverse (analyses s)) ∧
  length (lastAnalyses s) = Nat.min 8 (length (analyses s)).
Proof.
  split_and!.
  - intros p. by eexists.
  - intros. apply closeTrade_analyses.
  - apply reverse_sliceLast.
  - unfold lastAnalyses. by rewrite length_reverse, sliceLast_length.
Qed.



Lemma buildTrade_brackets p : bracketsOk (buildTrade p).
Proof. unfold bracketsOk, buildTrade. simpl. by destruct (p_type p). Qed.



Lemma runLedger_snoc ops op :
  runLedger (ops ++ [op]) = applyLedgerOp (runLedger ops) op.
Proof. unfold runLedger. by rewrite foldl_app. Qed.








(** C7, as stated, fails: [buildTrade] stores the entry price it is given,
    without rounding it.  A trade entered at 100.123 keeps 100.123. *)
Lemma C7_entry_price_not_rounded :
  let t := (createTrade (examplePayload 100.123 1 long) tradesInit).1 in
  trade_entryPrice t == 100.123 ∧
  toFixed2 (trade_entryPrice t) == 100.12 ∧
  ¬ (trade_entryPrice t == toFixed2 (trade_entryPrice t)).
Proof. by vm_compute. Qed.

(** C7, amended: both brackets of a new trade, and the exit price and the
    realized pnl of a closed trade, are equal to their own rounding to
    2 decimals; the entry price is stored as supplied, so it is rounded
    whenever the supplied price is. *)
Theorem C7_rounded_at_derivation :
  (∀ p s,
     let t := (createTrade p s).1 in
     toFixed2 (trade_stopLoss t) == trade_stopLoss t ∧
     toFixed2 (trade_takeProfit t) == trade_takeProfit t ∧
     trade_entryPrice t = p_entryPrice p ∧
     (toFixed2 (p_entryPrice p) == p_entryPrice p →
      toFixed2 (trade_entryPrice t) == trade_entryPrice t)) ∧
  (∀ s tradeId exitPrice timestamp closedTrade s',
     closeTrade tradeId exitPrice timestamp s = (Some closedTrade, s') →
     ∃ exit' pnl,
       trade_exitPrice closedTrade = Some exit' ∧ toFixed2 exit' == exit' ∧
       trade_pnl closedTrade = Some pnl ∧ toFixed2 pnl == pnl).
Proof.
  split.
  - intros p s.
    cbn [createTrade fst buildTrade trade_stopLoss trade_takeProfit trade_entryPrice].
    split_and!; [by rewrite toFixed2_idem | by rewrite toFixed2_idem | done | done].
  - intros s tradeId exitPrice timestamp closedTrade s' Hclose.
    apply closeTrade_pnl in Hclose as (trade & _ & _ & ->).
    exists (toFixed2 exitPrice), (realizedPnl trade exitPrice).
    cbn [closedOf trade_exitPrice trade_pnl]. unfold realizedPnl.
    split_and!; [done | by rewrite toFixed2_idem | done | by rewrite toFixed2_idem].
Qed.

Lemma C7_rounded_at_derivation_witness :
  ∃ exit' pnl,
    trade_exitPrice (closedOf (buildTrade (examplePayload 100 1 long)) 103.456 2000)
      = Some exit' ∧ toFixed2 exit' == exit' ∧
    trade_pnl (closedOf (buildTrade (examplePayload 100 1 long)) 103.456 2000)
      = Some pnl ∧ toFixed2 pnl == pnl.
Proof.
  apply (proj2 C7_rounded_at_derivation
           (ledgerWith (examplePayload 100 1 long)) "grok-1000" 103.456%Q 2000%Z _
           (closeTrade "grok-1000" 103.456 2000
              (ledgerWith (examplePayload 100 1 long))).2).
  reflexivity.
Defined.

(** ** The traders store *)

Lemma lookup_withTrader s traderId t id :
  traders (withTrader s traderId t) !! id =
    if decide (traderId = id) then Some t else traders s !! id.
Proof. unfold withTrader. cbn [traders]. apply lookup_insert. Qed.

(** What the three actions do to the trader they name and to the others. *)
Lemma updateBalance_lookup traderId delta metaTime now s id :
  traders (updateBalance traderId delta metaTime now s) !! id =
    if decide (traderId = id)
    then (λ trader,
            let balance' := toFixed2 (balance trader + delta) in
            let peak' := max2 (peakBalance (stats trader)) balance' in
            {| trader_id := trader_id trader;
               trader_name := trader_name trader;
               riskTolerance := riskTolerance trader;
               preferredAssets := preferredAssets trader;
               analysisStyle := analysisStyle trader;
               balance := balance';
               startOfDayBalance := startOfDayBalance trader;
               balanceHistory :=
                 sliceLast 240 (balanceHistory trader ++
                                [mkBalancePoint (default now metaTime) balance']);
               lastAnalysis := lastAnalysis trader;
               stats := {| bestTrade := bestTrade (stats trader);
                           worstTrade := worstTrade (stats trader);
                           winRate := winRate (stats trader);
                           totalTrades := totalTrades (stats trader);
                           wins := wins (stats trader);
                           maxDrawdown :=
                             max2 (maxDrawdown (stats trader))
                                  (toFixed2 (peak' - balance'));
                           peakBalance := peak' |} |}) <$> traders s !! id
    else traders s !! id.
Proof.
  unfold updateBalance. case_decide as Hid.
  - subst id. destruct (traders s !! traderId) as [trader |] eqn:E; [| by rewrite E].
    rewrite lookup_withTrader, decide_True by done. done.
  - destruct (traders s !! traderId); [| done].
    by rewrite lookup_withTrader, decide_False.
Qed.

Lemma registerTrade_stats traderId trade s id trader :
  traders s !! id = Some trader →
  ∃ trader', traders (registerTrade traderId trade s) !! id = Some trader' ∧
    balanceHistory trader' = balanceHistory trader ∧
    peakBalance (stats trader') = peakBalance (stats trader) ∧
    maxDrawdown (stats trader') = maxDrawdown (stats trader) ∧
    (traderId ≠ id → trader' = trader) ∧
    (traderId = id →
       totalTrades (stats trader') = (totalTrades (stats trader) + 1)%Z ∧
       wins (stats trader') =
         (if isWin trade then wins (stats trader) + 1 else wins (stats trader))%Z ∧
       winRate (stats trader') =
         if decide (totalTrades (stats trader') = 0%Z) then 0%Q
         else toFixed1 (inject_Z (wins (stats trader')) /
                        inject_Z (totalTrades (stats trader')) * 100)).
Proof.
  intros Hl. unfold registerTrade.
  destruct (decide (traderId = id)) as [-> | Hne].
  - rewrite Hl, lookup_withTrader, decide_True by done.
    eexists. split; [done |]. cbn. split_and!; done.
  - destruct (traders s !! traderId).
    + rewrite lookup_withTrader, decide_False by done.
      exists trader. split_and!; done.
    + exists trader. split_and!; done.
Qed.

Lemma setAnalysis_stats traderId analysis s id trader :
  traders s !! id = Some trader →
  ∃ trader', traders (setAnalysis traderId analysis s) !! id = Some trader' ∧
    balanceHistory trader' = balanceHistory trader ∧
    stats trader' = stats trader.
Proof.
  intros Hl. unfold setAnalysis.
  destruct (decide (traderId = id)) as [-> | Hne].
  - rewrite Hl, lookup_withTrader, decide_True by done. by eexists.
  - destruct (traders s !! traderId).
    + rewrite lookup_withTrader, decide_False by done. by exists trader.
    + by exists trader.
Qed.

Lemma tradersInit_lookup t0 id trader :
  traders (tradersInit t0) !! id = Some trader →
  stats trader = mkStats None None 0 0 0 0 BASE_BALANCE ∧
  length (balanceHistory trader) = 1.
Proof.
  unfold tradersInit, strategies. cbn [foldl traders newTrader trader_id].
  rewrite !lookup_insert. repeat case_decide; by intros [= <-].
Qed.

(** The win rate computed by [registerTrade] is a percentage. *)
Lemma winRate_range (w t : Z) :
  (0 ≤ w ≤ t)%Z → (0 < t)%Z →
  (0 <= toFixed1 (inject_Z w / inject_Z t * 100) <= 100)%Q.
Proof.
  intros [Hw Hwt] Ht.
  assert (0 < inject_Z t)%Q as Ht' by (by rewrite (Zlt_Qlt 0 t) in Ht).
  assert (0 <= inject_Z w)%Q as Hw' by (by rewrite (Zle_Qle 0 w) in Hw).
  assert (inject_Z w <= inject_Z t)%Q as Hwt' by (by rewrite Zle_Qle in Hwt).
  assert (0 <= inject_Z w / inject_Z t)%Q as H0.
  { apply Qle_shift_div_l; [done | lra]. }
  assert (inject_Z w / inject_Z t <= 1)%Q as H1.
  { apply Qle_shift_div_r; [done | lra]. }
  split.
  - apply Qle_trans with (toFixed1 0); [by compute |]. apply toFixed_mono. lra.
  - apply Qle_trans with (toFixed1 100); [| by compute]. apply toFixed_mono. lra.
Qed.

Lemma runRegistry_snoc t0 ops op :
  runRegistry t0 (ops ++ [op]) = applyRegistryOp (runRegistry t0 ops) op.
Proof. unfold runRegistry. by rewrite foldl_app. Qed.

(** Every trader present before an operation is present after it. *)
Lemma applyRegistryOp_lookup s op id trader :
  traders s !! id = Some trader →
  ∃ trader', traders (applyRegistryOp s op) !! id = Some trader'.
Proof.
  intros Hl. destruct op as [traderId delta metaTime now | traderId trade | traderId analysis];
    cbn [applyRegistryOp].
  - rewrite updateBalance_lookup, Hl. case_decide; by eexists.
  - destruct (registerTrade_stats traderId trade s id trader Hl) as (t' & ? & _).
    by exists t'.
  - destruct (setAnalysis_stats traderId analysis s id trader Hl) as (t' & ? & _).
    by exists t'.
Qed.

(** One operation keeps the statistics consistent and the balance history
    within 240 entries. *)
Lemma applyRegistryOp_invariant s op :
  (∀ id trader, traders s !! id = Some trader →
     statsOk (stats trader) ∧ length (balanceHistory trader) ≤ 240) →
  ∀ id trader, traders (applyRegistryOp s op) !! id = Some trader →
     statsOk (stats trader) ∧ length (balanceHistory trader) ≤ 240.
Proof.
  intros Hinv id trader'.
  destruct op as [traderId delta metaTime now | traderId trade | traderId analysis];
    cbn [applyRegistryOp].
  - rewrite updateBalance_lookup. case_decide; [| by apply Hinv].
    destruct (traders s !! id) as [trader |] eqn:E; [| done].
    intros [= <-]. destruct (Hinv id trader E) as [Hs Hb].
    split; [done |]. cbn [balanceHistory]. rewrite sliceLast_length. lia.
  - destruct (traders s !! id) as [trader |] eqn:E.
    + destruct (registerTrade_stats traderId trade s id trader E)
        as (t' & -> & Hbh & _ & _ & Hother & Hsame).
      intros [= <-]. destruct (Hinv id trader E) as [[Hw Hr] Hb].
      split; [| by rewrite Hbh].
      destruct (decide (traderId = id)) as [Heq | Hne]; [| by rewrite (Hother Hne)].
      destruct (Hsame Heq) as (Ht & Hwins & Hrate).
      assert (0 ≤ wins (stats t') ≤ totalTrades (stats t'))%Z as Hw'.
      { rewrite Hwins, Ht. destruct (isWin trade); lia. }
      split; [done |]. rewrite Hrate.
      case_decide; [lra | apply winRate_range; [done | lia]].
    + unfold registerTrade.
      destruct (traders s !! traderId) eqn:E'; [| by rewrite E].
      rewrite lookup_withTrader. case_decide; [congruence | by rewrite E].
  - destruct (traders s !! id) as [trader |] eqn:E.
    + destruct (setAnalysis_stats traderId analysis s id trader E)
        as (t' & -> & Hbh & Hst).
      intros [= <-]. rewrite Hst, Hbh. by apply (Hinv id).
    + unfold setAnalysis.
      destruct (traders s !! traderId) eqn:E'; [| by rewrite E].
      rewrite lookup_withTrader. case_decide; [congruence | by rewrite E].
Qed.

Lemma registry_invariant t0 ops id trader :
  traders (runRegistry t0 ops) !! id = Some trader →
  statsOk (stats trader) ∧ length (balanceHistory trader) ≤ 240.
Proof.
  revert id trader. induction ops as [| op ops IH] using rev_ind.
  - intros id trader H. change (runRegistry t0 []) with (tradersInit t0) in H.
    destruct (tradersInit_lookup t0 id trader H) as [Hs Hb]. rewrite Hs, Hb.
    split; [| lia]. split; cbn; [lia | lra].
  - rewrite runRegistry_snoc. by apply applyRegistryOp_invariant.
Qed.

(** One operation never lowers a trader's peak balance or maximum
    drawdown. *)
Lemma applyRegistryOp_monotone s op id trader :
  traders s !! id = Some trader →
  ∃ trader', traders (applyRegistryOp s op) !! id = Some trader' ∧
    (peakBalance (stats trader) <= peakBalance (stats trader'))%Q ∧
    (maxDrawdown (stats trader) <= maxDrawdown (stats trader'))%Q.
Proof.
  intros Hl.
  destruct op as [traderId delta metaTime now | traderId trade | traderId analysis];
    cbn [applyRegistryOp].
  - rewrite updateBalance_lookup, Hl. case_decide.
    + eexists. split; [done |]. cbn [stats peakBalance maxDrawdown].
      split; apply Q.le_max_l.
    + exists trader. split; [done |]. split; apply Qle_refl.
  - destruct (registerTrade_stats traderId trade s id trader Hl)
      as (t' & ? & _ & Hp & Hd & _).
    exists t'. split; [done |]. rewrite Hp, Hd. split; apply Qle_refl.
  - destruct (setAnalysis_stats traderId analysis s id trader Hl)
      as (t' & ? & _ & Hst).
    exists t'. split; [done |]. rewrite Hst. split; apply Qle_refl.
Qed.



(** C9: in the registry reached from the initial one by any sequence of
    balance adjustments, trade registrations and analysis updates, every
    trader has [0 ≤ wins ≤ totalTrades] and a win rate within [0, 100];
    and one more operation, on any registry, never lowers a trader's peak
    balance or maximum drawdown. *)
Theorem C9_stats_invariants :
  (∀ t0 ops id trader,
     traders (runRegistry t0 ops) !! id = Some trader →
     (0 ≤ wins (stats trader) ≤ totalTrades (stats trader))%Z ∧
     (0 <= winRate (stats trader) <= 100)%Q) ∧
  (∀ s op id trader,
     traders s !! id = Some trader →
     ∃ trader', traders (applyRegistryOp s op) !! id = Some trader' ∧
       (peakBalance (stats trader) <= peakBalance (stats trader'))%Q ∧
       (maxDrawdown (stats trader) <= maxDrawdown (stats trader'))%Q).
Proof.
  split.
  - intros t0 ops id trader H. by apply (registry_invariant t0 ops id trader H).
  - apply applyRegistryOp_monotone.
Qed.

Lemma C9_stats_invariants_witness :
  ∃ trader,
    traders (runRegistry 0 exampleRegistryOps) !! "grok" = Some trader ∧
    (0 ≤ wins (stats trader) ≤ totalTrades (stats trader))%Z ∧
    (0 <= winRate (stats trader) <= 100)%Q ∧
    balance trader == 10003 ∧ winRate (stats trader) == 100.
Proof.
  eexists. split; [vm_compute; reflexivity |].
  split; [| split].
  - apply (proj1 C9_stats_invariants 0%Z exampleRegistryOps "grok").
    vm_compute. reflexivity.
  - apply (proj1 C9_stats_invariants 0%Z exampleRegistryOps "grok").
    vm_compute. reflexivity.
  - split; reflexivity.
Defined.

(** ** The market store *)

Section MarketFacts.
Variable random : nat → Q.
Local Open Scope Q_scope.

(** [evolvePrice] never goes below 5 nor below half the price. *)
Lemma evolvePrice_floor price k :
  5 <= (evolvePrice random price k).1 ∧ price * 0.5 <= (evolvePrice random price k).1.
Proof.
  unfold evolvePrice. destruct (ltb _ _); cbn [fst]; unfold max3; split.
  - apply Q.le_max_r.
  - eapply Qle_trans; [apply Q.le_max_r | apply Q.le_max_l].
  - apply Q.le_max_r.
  - eapply Qle_trans; [apply Q.le_max_r | apply Q.le_max_l].
Qed.

(** With draws in [0, 1) the price loses at most 7% in one step. *)
Lemma evolvePrice_lower price k :
  inUnitInterval random → 0 <= price →
  price * 0.93 <= (evolvePrice random price k).1.
Proof.
  intros Hr Hp. unfold evolvePrice.
  pose proof (Hr k) as H0. pose proof (Hr (k + 1)%nat) as H1.
  pose proof (Hr (k + 3)%nat) as H3.
  destruct (ltb _ _); cbn [fst]; unfold max3;
    (eapply Qle_trans; [| apply Q.le_max_l]); (eapply Qle_trans; [| apply Q.le_max_l]).
  - rewrite (Qmult_comm price 0.93), (Qmult_comm price (_ + _)).
    apply Qmult_le_compat_r; lra.
  - rewrite (Qmult_comm price 0.93), (Qmult_comm price (_ + _)).
    apply Qmult_le_compat_r; lra.
Qed.

Lemma advanceAsset_spec timestamp asset k :
  let asset' := (advanceAsset random timestamp asset k).1 in
  asset_symbol asset' = asset_symbol asset ∧
  asset_name asset' = asset_name asset ∧
  asset_price asset' = toFixed2 (evolvePrice random (asset_price asset) k).1 ∧
  asset_history asset' =
    sliceLast 120 (asset_history asset) ++ [mkPoint timestamp (asset_price asset')].
Proof. unfold advanceAsset. by destruct (evolvePrice _ _ _). Qed.

(** A relation that every single step establishes holds, position by
    position, between the assets before and after a tick. *)
Lemma advanceAssets_Forall2 (R : Asset → Asset → Prop) timestamp :
  (∀ asset k, R asset (advanceAsset random timestamp asset k).1) →
  ∀ l k, Forall2 R l (advanceAssets random timestamp l k).1.
Proof.
  intros HR l. induction l as [| asset rest IH]; intros k; cbn [advanceAssets].
  - constructor.
  - pose proof (HR asset k) as Ha.
    destruct (advanceAsset random timestamp asset k) as [asset' k1].
    pose proof (IH k1) as Hrest.
    destruct (advanceAssets random timestamp rest k1) as [rest' k2].
    by constructor.
Qed.

Lemma generateNextTick_assets now m k :
  assets (generateNextTick random now m k).1.2 = (advanceAssets random now (assets m) k).1.
Proof. unfold generateNextTick. by destruct (advanceAssets _ _ _ _). Qed.

(** The new price of an asset respects the floor, rounding included. *)
Lemma advanceAsset_floor timestamp asset k :
  inUnitInterval random →
  Qmax 5 (0.5 * asset_price asset) <= asset_price (advanceAsset random timestamp asset k).1.
Proof.
  intros Hr.
  destruct (advanceAsset_spec timestamp asset k) as (_ & _ & -> & _).
  set (p := asset_price asset).
  destruct (evolvePrice_floor p k) as [H5 Hhalf].
  assert (5 <= toFixed2 (evolvePrice random p k).1) as Hfive.
  { apply Qle_trans with (toFixed2 5); [by compute | by apply toFixed_mono]. }
  apply Q.max_lub; [done |].
  destruct (Qlt_le_dec 10 p) as [Hbig | Hsmall]; [| lra].
  pose proof (evolvePrice_lower p k Hr ltac:(lra)) as Hlow.
  pose proof (toFixed2_near (evolvePrice random p k).1) as [Hnear _].
  lra.
Qed.

Lemma advanceAsset_history_length timestamp asset k :
  length (asset_history (advanceAsset random timestamp asset k).1) =
    S (Nat.min 120 (length (asset_history asset))).
Proof.
  destruct (advanceAsset_spec timestamp asset k) as (_ & _ & _ & ->).
  rewrite length_app, sliceLast_length. cbn. lia.
Qed.

Lemma marketRun_snoc t0 nows now :
  marketRun random t0 (nows ++ [now]) =
    marketStep random (marketRun random t0 nows) now.
Proof. unfold marketRun. by rewrite foldl_app. Qed.

Lemma marketStep_assets st now :
  assets (marketStep random st now).1 = (advanceAssets random now (assets st.1) st.2).1.
Proof.
  unfold marketStep, generateNextTick.
  by destruct (advanceAssets _ _ _ _).
Qed.

(** After [n] ticks every asset's history holds [min (n + 1) 121] points. *)
Lemma marketRun_history_length t0 nows :
  Forall (λ a, length (asset_history a) = Nat.min (S (length nows)) 121)
         (assets (marketRun random t0 nows).1).
Proof.
  induction nows as [| now nows IH] using rev_ind.
  - cbn. repeat constructor.
  - rewrite marketRun_snoc, marketStep_assets.
    set (m := (marketRun random t0 nows).1) in *.
    set (k := (marketRun random t0 nows).2).
    pose proof (advanceAssets_Forall2
                  (λ a a', length (asset_history a') = S (Nat.min 120 (length (asset_history a))))
                  now (advanceAsset_history_length now) (assets m) k) as H2.
    rewrite length_app. cbn [length].
    revert IH H2. generalize (assets m) (advanceAssets random now (assets m) k).1.
    intros l l' IH H2. induction H2 as [| a a' l l' Ha _ IH2]; [constructor |].
    inversion IH as [| ? ? Hlen Hrest]; subst.
    constructor; [| by apply IH2]. rewrite Ha, Hlen. lia.
Qed.

Lemma marketRun_assets_length t0 nows :
  length (assets (marketRun random t0 nows).1) = 4%nat.
Proof.
  induction nows as [| now nows IH] using rev_ind; [done |].
  rewrite marketRun_snoc, marketStep_assets, <- IH. symmetry.
  eapply Forall2_length, (advanceAssets_Forall2 (λ _ _, True)). done.
Qed.

End MarketFacts.

(** C1, the part that fails: [generateNextTick] cuts the history to 120
    points before it appends the new one, so from the 120th tick on every
    one of the four assets holds a history of 121 points.  (The balance
    history and the closed-trade log append first and cut afterwards; see
    [ring_buffers_within_bounds].) *)
Theorem C1_asset_history_holds_121 (random : nat → Q) (t0 : Z) (nows : list Z) :
  120 ≤ length nows →
  length (assets (marketRun random t0 nows).1) = 4 ∧
  Forall (λ a, length (asset_history a) = 121)
         (assets (marketRun random t0 nows).1).
Proof.
  intros Hn. split; [apply marketRun_assets_length |].
  eapply Forall_impl; [apply marketRun_history_length |].
  intros a Ha. cbn beta in Ha. lia.
Qed.

Lemma C1_asset_history_holds_121_witness :
  120 ≤ length exampleTicks ∧
  Forall (λ a, length (asset_history a) = 121)
         (assets (marketRun exampleRandom 0 exampleTicks).1).
Proof.
  split; [vm_compute; lia |].
  apply (C1_asset_history_holds_121 exampleRandom 0 exampleTicks).
  vm_compute. lia.
Defined.


(** C6: when the random draws lie in [0, 1), as those of [Math.random()]
    do, the price that a tick stores for an asset, rounding included, is at
    least 5 and at least half the asset's previous price. *)
Theorem C6_price_floor (random : nat → Q) (now : Z) (m : MarketState) (k : nat) :
  inUnitInterval random →
  Forall2 (λ a a', (Qmax 5 (0.5 * asset_price a) <= asset_price a')%Q)
          (assets m) (assets (generateNextTick random now m k).1.2).
Proof.
  intros Hr. rewrite generateNextTick_assets.
  apply advanceAssets_Forall2. intros asset k'. by apply advanceAsset_floor.
Qed.

Lemma C6_price_floor_witness :
  Forall2 (λ a a', (Qmax 5 (0.5 * asset_price a) <= asset_price a')%Q)
          (assets (marketInit 0))
          (assets (generateNextTick exampleRandom 1500 (marketInit 0) 0).1.2).
Proof.
  apply (C6_price_floor exampleRandom 1500 (marketInit 0) 0).
  intros k. unfold exampleRandom, Qle, Qlt. simpl. lia.
Defined.

(** ** The orchestration *)

Lemma filter_sublist_mono {A} (P : A → Prop) `{∀ x, Decision (P x)} (l1 l2 : list A) :
  sublist l1 l2 → sublist (filter P l1) (filter P l2).
Proof.
  induction 1 as [| x l1 l2 _ IH | x l1 l2 _ IH].
  - done.
  - rewrite !filter_cons. case_decide; [by constructor | done].
  - rewrite filter_cons. case_decide; [by constructor | done].
Qed.

Lemma preserves_ret {A} J (a : A) : preserves J (ret a).
Proof. by intros w. Qed.

Lemma preserves_throw {A} J : preserves J (@throw A).
Proof. by intros w. Qed.

Lemma preserves_getWorld J : preserves J getWorld.
Proof. by intros w. Qed.

Lemma preserves_bind {A B} J (m : Sim A) (f : A → Sim B) :
  preserves J m → (∀ a, preserves J (f a)) → preserves J (bind m f).
Proof.
  intros Hm Hf w Hw. unfold bind. specialize (Hm w Hw).
  destruct (m w) as [a w' | w']; [by apply Hf | done].
Qed.

Lemma preserves_forEach {A} J (f : A → Sim unit) (l : list A) :
  (∀ x, preserves J (f x)) → preserves J (forEach f l).
Proof.
  intros Hf. induction l as [| x rest IH]; cbn [forEach].
  - apply preserves_ret.
  - apply preserves_bind; [apply Hf | by intros _].
Qed.

Lemma preserves_onTraders J (f : TradersState → TradersState) :
  (∀ w, J w → J (mkWorld (marketStore w) (f (tradersStore w)) (tradesStore w) (drawn w))) →
  preserves J (onTraders f).
Proof. intros H w Hw. by apply H. Qed.

Lemma preserves_onTrades {A} J (f : TradesState → A * TradesState) :
  (∀ w, J w → J (mkWorld (marketStore w) (tradersStore w) (f (tradesStore w)).2 (drawn w))) →
  preserves J (onTrades f).
Proof.
  intros H w Hw. unfold onTrades. specialize (H w Hw).
  by destruct (f (tradesStore w)).
Qed.

Section DashboardFacts.
Variable random : nat → Q.
Variable numberToString : Q → string.

Lemma preserves_rand J : cursorFree J → preserves J (rand random).
Proof. intros HJ w Hw. by apply HJ. Qed.

(** [maybeOpenTrade] either leaves the ledger as it is, or the trader held
    fewer than 3 positions and one trade was created for this trader, at
    the current price of one of the assets. *)
Lemma maybeOpenTrade_ledger trader timestamp w :
  let w' := worldOf (maybeOpenTrade random numberToString trader timestamp w) in
  marketStore w' = marketStore w ∧
  (tradesStore w' = tradesStore w ∨
   openCount (trader_id trader) w < 3 ∧
   ∃ asset size type analysis,
     asset ∈ assets (marketStore w) ∧
     tradesStore w' =
       (createTrade {| p_traderId := trader_id trader;
                       p_asset := asset_symbol asset;
                       p_type := type;
                       p_entryPrice := asset_price asset;
                       p_size := size;
                       p_analysis := analysis;
                       p_timestamp := timestamp |} (tradesStore w)).2).
Proof.
  unfold maybeOpenTrade, selectAsset, bind, getWorld, rand, ret, throw,
    onTrades, onTraders, openCount.
  cbn [worldOf].
  destruct (decide (3 ≤ _)) as [Hge | Hlt]; [by split; [| left] |].
  cbn [drawn marketStore tradersStore tradesStore].
  destruct (negb _); [by split; [| left] |].
  cbn [drawn marketStore tradersStore tradesStore].
  destruct (at_index _ _) as [asset |] eqn:Hsel; [| by split; [| left]].
  cbn [worldOf createTrade marketStore tradesStore]. split; [done |]. right.
  split; [lia |]. eexists asset, _, _, _. split; [| done].
  unfold at_index in Hsel. destruct (_ <? _)%Z; [done |].
  apply list_elem_of_lookup_2 in Hsel.
  destruct (decide (length _ = 0)); [done |].
  by apply list_elem_of_filter in Hsel as [_ ?].
Qed.

(** One iteration of the closing loop leaves the market alone and either
    leaves the ledger alone or is a [closeTrade] on it. *)
Lemma maybeCloseOne_ledger trader timestamp prices trade w :
  let w' :=
    worldOf (maybeCloseOne random trader timestamp prices trade w) in
  marketStore w' = marketStore w ∧
  (tradesStore w' = tradesStore w ∨
   ∃ price, tradesStore w' =
              (closeTrade (trade_id trade) price timestamp (tradesStore w)).2).
Proof.
  unfold maybeCloseOne, bind, getWorld, rand, ret, throw, onTrades, onTraders.
  set (price := match prices !! trade_asset trade with
                | Some asset => asset_price asset
                | None => trade_entryPrice trade
                end).
  destruct (_ || _).
  - cbn [negb]. destruct (closeTrade _ _ _ _) as [[closedTrade |] s'] eqn:E.
    + destruct (trade_pnl closedTrade);
        (split; [done |]); right; exists price;
        cbn [worldOf tradesStore]; by rewrite E.
    + split; [done |]. right. exists price. cbn [worldOf tradesStore]. by rewrite E.
  - destruct (negb _); [by split; [| left] |].
    cbn [drawn marketStore tradersStore tradesStore].
    destruct (closeTrade _ _ _ _) as [[closedTrade |] s'] eqn:E.
    + destruct (trade_pnl closedTrade);
        (split; [done |]); right; exists price;
        cbn [worldOf tradesStore]; by rewrite E.
    + split; [done |]. right. exists price. cbn [worldOf tradesStore]. by rewrite E.
Qed.

Lemma marketTick_ledger now w :
  tradesStore (worldOf (marketTick random now w)) = tradesStore w.
Proof.
  unfold marketTick. by destruct (generateNextTick _ _ _ _) as [[snapshot m] k].
Qed.

Lemma atMostThree_sublist w w' :
  sublist (openPositions (tradesStore w')) (openPositions (tradesStore w)) →
  atMostThree w → atMostThree w'.
Proof.
  intros Hsub H traderId. specialize (H traderId). unfold openCount, openOf in *.
  etrans; [| exact H]. by apply sublist_length, filter_sublist_mono.
Qed.

Lemma maybeCloseOne_atMostThree trader timestamp prices trade :
  preserves atMostThree (maybeCloseOne random trader timestamp prices trade).
Proof.
  intros w Hw.
  destruct (maybeCloseOne_ledger trader timestamp prices trade w) as [_ [H | [price H]]];
    eapply atMostThree_sublist; try exact Hw; rewrite H; [done |].
  apply closeTrade_open_sublist.
Qed.

Lemma maybeCloseTrades_atMostThree trader timestamp :
  preserves atMostThree (maybeCloseTrades random trader timestamp).
Proof.
  unfold maybeCloseTrades. apply preserves_bind; [apply preserves_getWorld |].
  intros w0. apply preserves_forEach. intros trade.
  apply maybeCloseOne_atMostThree.
Qed.

Lemma openCount_createTrade traderId p w w' :
  tradesStore w' = (createTrade p (tradesStore w)).2 →
  openCount traderId w' =
    if decide (p_traderId p = traderId) then S (openCount traderId w)
    else openCount traderId w.
Proof.
  intros H. unfold openCount, openOf. rewrite H. cbn [createTrade snd openPositions].
  rewrite filter_app, length_app, filter_cons, filter_nil.
  cbn [buildTrade trade_aiTrader]. case_decide; cbn [length]; lia.
Qed.

Lemma maybeOpenTrade_atMostThree trader timestamp :
  preserves atMostThree (maybeOpenTrade random numberToString trader timestamp).
Proof.
  intros w Hw traderId.
  destruct (maybeOpenTrade_ledger trader timestamp w)
    as [_ [H | [Hlt (asset & size & type & analysis & _ & H)]]].
  - unfold openCount. rewrite H. apply Hw.
  - rewrite (openCount_createTrade traderId _ w _ H). cbn [p_traderId].
    case_decide as Hid; [subst traderId; lia | apply Hw].
Qed.

Lemma runSimulationTick_atMostThree now :
  preserves atMostThree (runSimulationTick random numberToString now).
Proof.
  unfold runSimulationTick. apply preserves_bind.
  - intros w Hw traderId. unfold openCount. rewrite marketTick_ledger. apply Hw.
  - intros snapshot. apply preserves_bind; [apply preserves_getWorld |].
    intros w0. apply preserves_forEach. intros trader.
    apply preserves_bind; [apply maybeCloseTrades_atMostThree |].
    intros _. apply maybeOpenTrade_atMostThree.
Qed.

Lemma runTicks_preserves J nows w :
  (∀ now, preserves J (runSimulationTick random numberToString now)) →
  J w → J (runTicks random numberToString nows w).
Proof.
  intros Htick. revert w. induction nows as [| now nows IH]; intros w Hw; [done |].
  cbn [runTicks foldl]. apply IH. by apply Htick.
Qed.

Lemma simulation_atMostThree t0 now1 now2 nows :
  atMostThree (simulation random numberToString t0 now1 now2 nows).
Proof.
  unfold simulation. apply runTicks_preserves; [apply runSimulationTick_atMostThree |].
  unfold onMounted.
  apply (preserves_bind atMostThree (marketTick random now1)
           (λ _, runSimulationTick random numberToString now2)).
  - intros w Hw traderId. unfold openCount. rewrite marketTick_ledger. apply Hw.
  - intros _. apply runSimulationTick_atMostThree.
  - intros traderId. cbn. lia.
Qed.


(** *** Prices stay rounded across the simulation *)

Lemma advanceAssets_rounded timestamp l k :
  Forall (λ a, isRounded (asset_price a)) (advanceAssets random timestamp l k).1.
Proof.
  revert k. induction l as [| asset rest IH]; intros k; cbn [advanceAssets].
  - constructor.
  - pose proof (advanceAsset_spec random timestamp asset k) as (_ & _ & Hp & _).
    destruct (advanceAsset random timestamp asset k) as [asset' k1].
    specialize (IH k1).
    destruct (advanceAssets random timestamp rest k1) as [rest' k2].
    constructor; [| done]. cbn [fst] in Hp. unfold isRounded.
    by rewrite Hp, toFixed2_idem.
Qed.

Lemma marketTick_rounded now :
  preserves pricesRounded (marketTick random now).
Proof.
  intros w (_ & Ho & Hh). unfold pricesRounded.
  rewrite marketTick_ledger. split; [| done].
  unfold marketTick.
  pose proof (generateNextTick_assets random now (marketStore w) (drawn w)) as Ha.
  destruct (generateNextTick _ _ _ _) as [[snapshot m] k].
  cbn [worldOf marketStore fst snd] in *. rewrite Ha. apply advanceAssets_rounded.
Qed.

Lemma closeTrade_rounded tradeId exitPrice timestamp s :
  Forall (λ t, isRounded (trade_entryPrice t)) (openPositions s) →
  Forall (λ t, isRounded (trade_entryPrice t)) (history s) →
  let s' := (closeTrade tradeId exitPrice timestamp s).2 in
  Forall (λ t, isRounded (trade_entryPrice t)) (openPositions s') ∧
  Forall (λ t, isRounded (trade_entryPrice t)) (history s').
Proof.
  intros Ho Hh. unfold closeTrade.
  destruct (list_find _ _) as [[index trade] |] eqn:E;
    cbn [snd openPositions history]; [| done].
  apply list_find_Some in E as (Hl & _ & _).
  split; [by apply Forall_delete |].
  apply Forall_take. constructor; [| done]. cbn [closedOf trade_entryPrice].
  exact (Forall_lookup_1 (λ t, isRounded (trade_entryPrice t)) _ index trade Ho Hl).
Qed.

Lemma maybeCloseOne_rounded trader timestamp prices trade :
  preserves pricesRounded (maybeCloseOne random trader timestamp prices trade).
Proof.
  intros w (Ha & Ho & Hh). unfold pricesRounded.
  destruct (maybeCloseOne_ledger trader timestamp prices trade w)
    as [-> [-> | [price ->]]]; [done |].
  split; [done |]. by apply closeTrade_rounded.
Qed.

Lemma maybeOpenTrade_rounded trader timestamp :
  preserves pricesRounded (maybeOpenTrade random numberToString trader timestamp).
Proof.
  intros w (Ha & Ho & Hh). unfold pricesRounded.
  destruct (maybeOpenTrade_ledger trader timestamp w)
    as [-> [-> | [_ (asset & size & type & analysis & Hin & ->)]]]; [done |].
  split; [done |]. cbn [createTrade snd openPositions history]. split; [| done].
  apply Forall_app. split; [done |]. constructor; [| done].
  cbn [buildTrade trade_entryPrice p_entryPrice].
  rewrite Forall_forall in Ha. by apply Ha.
Qed.

Lemma runSimulationTick_rounded now :
  preserves pricesRounded (runSimulationTick random numberToString now).
Proof.
  unfold runSimulationTick. apply preserves_bind; [apply marketTick_rounded |].
  intros snapshot. apply preserves_bind; [apply preserves_getWorld |].
  intros w0. apply preserves_forEach. intros trader.
  apply preserves_bind.
  - unfold maybeCloseTrades. apply preserves_bind; [apply preserves_getWorld |].
    intros w1. apply preserves_forEach. intros trade. apply maybeCloseOne_rounded.
  - intros _. apply maybeOpenTrade_rounded.
Qed.

Lemma simulation_rounded t0 now1 now2 nows :
  pricesRounded (simulation random numberToString t0 now1 now2 nows).
Proof.
  unfold simulation. apply runTicks_preserves; [apply runSimulationTick_rounded |].
  unfold onMounted.
  apply (preserves_bind pricesRounded (marketTick random now1)
           (λ _, runSimulationTick random numberToString now2)).
  - apply marketTick_rounded.
  - intros _. apply runSimulationTick_rounded.
  - split_and!; [| constructor | constructor].
    unfold worldInit, marketInit, ASSETS. cbn [marketStore assets fmap list_fmap].
    repeat constructor; by vm_compute.
Qed.

End DashboardFacts.

(** C10: in every world reached by [onMounted] followed by any number of
    simulation ticks, whatever the random draws and the clock, every trader
    holds at most 3 open positions; [maybeOpenTrade] leaves the ledger as it
    is when the trader already holds 3 or more, and otherwise adds at most
    one position, for that trader only. *)
Theorem C10_at_most_three_open (random : nat → Q) (numberToString : Q → string) :
  (∀ t0 now1 now2 nows traderId,
     openCount traderId (simulation random numberToString t0 now1 now2 nows) ≤ 3) ∧
  (∀ trader timestamp w,
     let w' := worldOf (maybeOpenTrade random numberToString trader timestamp w) in
     (3 ≤ openCount (trader_id trader) w → tradesStore w' = tradesStore w) ∧
     openCount (trader_id trader) w' ≤ S (openCount (trader_id trader) w) ∧
     (∀ other, other ≠ trader_id trader → openCount other w' = openCount other w)).
Proof.
  split.
  - intros t0 now1 now2 nows traderId. apply simulation_atMostThree.
  - intros trader timestamp w.
    destruct (maybeOpenTrade_ledger random numberToString trader timestamp w)
      as [_ [H | [Hlt (asset & size & type & analysis & _ & H)]]]; cbn zeta.
    + split_and!; [done | unfold openCount; rewrite H; lia |].
      intros other _. unfold openCount. by rewrite H.
    + split_and!; [lia | |].
      * rewrite (openCount_createTrade _ _ w _ H). cbn [p_traderId].
        by rewrite decide_True.
      * intros other Hne. rewrite (openCount_createTrade _ _ w _ H).
        cbn [p_traderId]. by rewrite decide_False.
Qed.

Lemma C10_at_most_three_open_witness :
  openCount "grok" exampleWorld = 3 ∧
  tradesStore (worldOf (maybeOpenTrade steadyRandom toFixed2String exampleTrader
                          5000 exampleWorld))
    = tradesStore exampleWorld.
Proof.
  split; [by vm_compute |].
  apply (proj2 (C10_at_most_three_open steadyRandom toFixed2String)
           exampleTrader 5000%Z exampleWorld).
  vm_compute. lia.
Defined.

(** ** More about the trades store *)

Lemma tradeIdOf_same_trader (traderId : string) (t1 t2 : Z) :
  tradeIdOf traderId t1 = tradeIdOf traderId t2 → t1 = t2.
Proof.
  unfold tradeIdOf. intros H.
  apply String.app_inj, String.app_inj in H. by apply pretty_Z_inj in H.
Qed.

(** Two trades of one trader made at different times have different ids:
    for a given trader the id determines the timestamp. *)
Theorem tradeIdOf_timestamp_inj (traderId : string) (t1 t2 : Z) :
  tradeIdOf traderId t1 = tradeIdOf traderId t2 → t1 = t2.
Proof. apply tradeIdOf_same_trader. Qed.

Lemma tradeIdOf_timestamp_inj_witness :
  tradeIdOf "grok" 1000 = tradeIdOf "grok" (500 + 500) ∧ (1000 = 500 + 500)%Z.
Proof.
  split; [reflexivity |].
  apply (tradeIdOf_timestamp_inj "grok" 1000 (500 + 500)). reflexivity.
Defined.

(** Creating a trade whose id no open trade carries, and closing that id,
    gives the open positions back as they were; the trade, closed, is the
    newest entry of the log, and the note of its creation stays. *)
Theorem create_then_close (p : Payload) (s : TradesState) (exitPrice : Q)
    (timestamp : Z) :
  (∀ t, t ∈ openPositions s → trade_id t ≠ tradeIdOf (p_traderId p) (p_timestamp p)) →
  let trade := (createTrade p s).1 in
  let closedTrade := closedOf trade exitPrice timestamp in
  closeTrade (trade_id trade) exitPrice timestamp (createTrade p s).2 =
    (Some closedTrade,
     {| openPositions := openPositions s;
        history := take 200 (closedTrade :: history s);
        analyses := analyses (createTrade p s).2 |}).
Proof.
  intros Hfresh trade closedTrade.
  assert (list_find (λ t, trade_id t = trade_id trade)
            (openPositions (createTrade p s).2)
          = Some (length (openPositions s), trade)) as Hfind.
  { apply list_find_Some. cbn [createTrade snd openPositions]. split_and!.
    - by rewrite lookup_app_r, Nat.sub_diag.
    - done.
    - intros j other Hj Hlt. rewrite lookup_app_l in Hj by done.
      apply Hfresh. by eapply list_elem_of_lookup_2. }
  rewrite (closeTrade_found _ _ _ _ _ _ Hfind). subst trade closedTrade.
  cbn [createTrade fst snd openPositions history analyses].
  rewrite (delete_middle (openPositions s) [] (buildTrade p)), app_nil_r.
  done.
Qed.

Lemma create_then_close_witness :
  openPositions
    (closeTrade "grok-1000" 103 2000 (ledgerWith (examplePayload 100 1 long))).2 = [].
Proof.
  refine (f_equal (λ r, openPositions r.2)
            (create_then_close (examplePayload 100 1 long) tradesInit 103 2000 _)).
  intros t Ht. by apply elem_of_nil in Ht.
Defined.

Lemma closeTrade_uniqueIds s tradeId exitPrice timestamp :
  uniqueIds (openPositions s) →
  uniqueIds (openPositions (closeTrade tradeId exitPrice timestamp s).2).
Proof.
  unfold uniqueIds. intros H.
  eapply sublist_NoDup; [exact H | apply fmap_sublist, closeTrade_open_sublist].
Qed.

(** When the open trades have distinct ids, a closed trade cannot be closed
    again: after a successful [closeTrade] no open trade carries the id, and
    a second [closeTrade] of the same id returns [null] and changes
    nothing. *)
Theorem close_only_once (s : TradesState) (tradeId : string)
    (exitPrice exitPrice' : Q) (timestamp timestamp' : Z)
    (closedTrade : Trade) (s' : TradesState) :
  uniqueIds (openPositions s) →
  closeTrade tradeId exitPrice timestamp s = (Some closedTrade, s') →
  (∀ t, t ∈ openPositions s' → trade_id t ≠ tradeId) ∧
  closeTrade tradeId exitPrice' timestamp' s' = (None, s').
Proof.
  intros Hu Hclose.
  assert (∀ t, t ∈ openPositions s' → trade_id t ≠ tradeId) as Hgone.
  { unfold closeTrade in Hclose.
    destruct (list_find _ _) as [[index trade] |] eqn:E; [| done].
    injection Hclose as _ <-. cbn [openPositions].
    apply list_find_Some in E as (Hl & Hid & _).
    intros t Ht Heq. unfold uniqueIds in Hu.
    rewrite <- (take_drop_middle _ _ _ Hl) in Hu.
    rewrite fmap_app, fmap_cons in Hu.
    apply NoDup_app in Hu as (_ & Hleft & Hright).
    apply NoDup_cons in Hright as [Hnot _].
    rewrite delete_take_drop in Ht. apply elem_of_app in Ht as [Ht | Ht].
    - apply (Hleft (trade_id t)); [by apply list_elem_of_fmap_2 |].
      rewrite Heq, <- Hid. apply elem_of_cons. by left.
    - apply Hnot. rewrite Hid, <- Heq. by apply list_elem_of_fmap_2. }
  split; [done |].
  apply closeTrade_missing, list_find_None, Forall_forall.
  intros t Ht. by apply Hgone.
Qed.

Lemma close_only_once_witness :
  closeTrade "grok-1000" 105 3000
    (closeTrade "grok-1000" 103 2000 (ledgerWith (examplePayload 100 1 long))).2
  = (None, (closeTrade "grok-1000" 103 2000 (ledgerWith (examplePayload 100 1 long))).2).
Proof.
  refine (proj2 (close_only_once (ledgerWith (examplePayload 100 1 long)) "grok-1000"
                   103 105 2000 3000 _ _ _ _)).
  - vm_compute. apply NoDup_singleton.
  - reflexivity.
Defined.

(** The closed-trade log is a window on the 200 most recent closes: a
    successful close puts the closed trade first; while the log holds fewer
    than 200 trades nothing is lost, and once it is full the oldest entry,
    the last one, is the one dropped. *)
Theorem history_window (s : TradesState) (tradeId : string) (exitPrice : Q)
    (timestamp : Z) (closedTrade : Trade) (s' : TradesState) :
  closeTrade tradeId exitPrice timestamp s = (Some closedTrade, s') →
  head (history s') = Some closedTrade ∧
  (length (history s) < 200 → history s' = closedTrade :: history s) ∧
  (length (history s) = 200 →
   ∃ oldest, history s = tail (history s') ++ [oldest] ∧
             length (history s') = 200).
Proof.
  unfold closeTrade. destruct (list_find _ _) as [[index trade] |]; [| done].
  intros [Hc <-]%pair_equal_spec. apply (inj Some) in Hc as <-.
  cbn [history]. unfold sliceFirst.
  assert (∀ (x : Trade) l, take 200 (x :: l) = x :: take 199 l) as Hcons by done.
  rewrite Hcons. cbn [head tail].
  split_and!; [done | |].
  - intros Hlt. by rewrite take_ge by lia.
  - intros Hfull.
    destruct (history s) as [| h0 hs _] using rev_ind; [done |].
    rewrite length_app in Hfull. cbn in Hfull.
    exists h0. rewrite take_app_length' by lia.
    rewrite length_cons. split; [done | lia].
Qed.

Lemma history_window_witness :
  head (history (closeTrade "grok-1000" 103 2000
                   (ledgerWith (examplePayload 100 1 long))).2)
    = Some exampleClosed.
Proof.
  refine (proj1 (history_window (ledgerWith (examplePayload 100 1 long)) "grok-1000"
                   103 2000 exampleClosed _ _)).
  reflexivity.
Defined.


(** ** More about the market store *)

Section MoreMarket.
Variable random : nat → Q.
Local Open Scope Q_scope.




(** With draws in [0, 1) the price gains less than 8.5% in one step, unless
    the floor of 5 applies. *)
Lemma evolvePrice_upper price k :
  inUnitInterval random → 5 <= price →
  (evolvePrice random price k).1 <= price * 1.085.
Proof.
  intros Hr Hp. unfold evolvePrice.
  pose proof (Hr k) as H0. pose proof (Hr (k + 1)%nat) as H1.
  pose proof (Hr (k + 3)%nat) as H3.
  destruct (ltb _ _); cbn [fst]; unfold max3;
    (apply Q.max_lub; [apply Q.max_lub |]); try lra.
  - rewrite (Qmult_comm price 1.085), (Qmult_comm price (_ + _)).
    apply Qmult_le_compat_r; lra.
  - rewrite (Qmult_comm price 1.085), (Qmult_comm price (_ + _)).
    apply Qmult_le_compat_r; lra.
Qed.

End MoreMarket.

Lemma generateNextTick_facts (random : nat → Q) (now : Z) (m : MarketState)
    (k : nat) :
  let snapshot := (generateNextTick random now m k).1.1 in
  let m' := (generateNextTick random now m k).1.2 in
  snapshot.1 = now ∧
  tick m' = (tick m + 1)%Z ∧
  asset_symbol <$> assets m' = asset_symbol <$> assets m ∧
  asset_name <$> assets m' = asset_name <$> assets m ∧
  Forall (λ a, last (asset_history a) = Some (mkPoint now (asset_price a)))
         (assets m') ∧
  snapshot.2 = (λ a, mkQuote (asset_symbol a) (asset_name a) (asset_price a))
                 <$> assets m'.
Proof.
  pose proof (advanceAssets_Forall2 random
                (λ a a', asset_symbol a' = asset_symbol a ∧
                         asset_name a' = asset_name a ∧
                         last (asset_history a') = Some (mkPoint now (asset_price a')))
                now) as H.
  specialize (H ltac:(intros asset k0;
                      destruct (advanceAsset_spec random now asset k0)
                        as (-> & -> & _ & ->); by rewrite last_snoc)
                (assets m) k).
  unfold generateNextTick.
  destruct (advanceAssets random now (assets m) k) as [assets' k'].
  cbn [fst snd assets tick] in *.
  split_and!; try done.
  - induction H as [| a a' l l' (Hs & _) _ IH]; [done |].
    by rewrite !fmap_cons, IH, Hs.
  - induction H as [| a a' l l' (_ & Hn & _) _ IH]; [done |].
    by rewrite !fmap_cons, IH, Hn.
  - induction H as [| a a' l l' (_ & _ & ?) _ IH]; by constructor.
Qed.

(** A market tick keeps the assets, their order, symbols and names; it
    adds one to the tick counter; every new history ends with the point made
    of the tick's timestamp and the asset's new price; and the returned
    snapshot carries that timestamp and the new prices in the same order. *)
Theorem generateNextTick_shape (random : nat → Q) (now : Z) (m : MarketState)
    (k : nat) :
  let snapshot := (generateNextTick random now m k).1.1 in
  let m' := (generateNextTick random now m k).1.2 in
  snapshot.1 = now ∧
  tick m' = (tick m + 1)%Z ∧
  asset_symbol <$> assets m' = asset_symbol <$> assets m ∧
  asset_name <$> assets m' = asset_name <$> assets m ∧
  Forall (λ a, last (asset_history a) = Some (mkPoint now (asset_price a)))
         (assets m') ∧
  snapshot.2 = (λ a, mkQuote (asset_symbol a) (asset_name a) (asset_price a))
                 <$> assets m'.
Proof. apply generateNextTick_facts. Qed.

(** Whatever the random draws, even outside [0, 1), every price that a
    market tick stores is at least 5. *)
Theorem price_at_least_five (random : nat → Q) (now : Z) (m : MarketState)
    (k : nat) :
  Forall (λ a, (5 <= asset_price a)%Q) (assets (generateNextTick random now m k).1.2).
Proof.
  rewrite generateNextTick_assets.
  pose proof (advanceAssets_Forall2 random (λ _ a', (5 <= asset_price a')%Q) now) as H.
  specialize (H ltac:(intros asset k0;
                      destruct (advanceAsset_spec random now asset k0)
                        as (_ & _ & -> & _);
                      apply Qle_trans with (toFixed2 5);
                      [by compute | apply toFixed_mono, evolvePrice_floor])
                (assets m) k).
  induction H; by constructor.
Qed.

(** With draws in [0, 1), one tick moves a price of at least 5 by less
    than 7% down and 8.5% up, up to the half cent of the rounding. *)
Theorem price_move_bounded (random : nat → Q) (now : Z) (m : MarketState)
    (k : nat) :
  inUnitInterval random →
  Forall (λ a, (5 <= asset_price a)%Q) (assets m) →
  Forall2 (λ a a', (asset_price a * 0.93 - 0.005 <= asset_price a'
                    <= asset_price a * 1.085 + 0.005)%Q)
          (assets m) (assets (generateNextTick random now m k).1.2).
Proof.
  intros Hr Hfive. rewrite generateNextTick_assets.
  pose proof (advanceAssets_Forall2 random
                (λ a a', (5 <= asset_price a →
                          asset_price a * 0.93 - 0.005 <= asset_price a'
                          <= asset_price a * 1.085 + 0.005)%Q) now) as H.
  specialize (H ltac:(intros asset k0 Hp;
                      destruct (advanceAsset_spec random now asset k0)
                        as (_ & _ & -> & _);
                      pose proof (toFixed2_near (evolvePrice random (asset_price asset) k0).1);
                      pose proof (evolvePrice_lower random (asset_price asset) k0 Hr
                                    ltac:(lra));
                      pose proof (evolvePrice_upper random (asset_price asset) k0 Hr Hp);
                      lra)
                (assets m) k).
  revert Hfive. induction H as [| a a' l l' Ha _ IH]; intros Hfive; [constructor |].
  inversion Hfive; subst. constructor; [by apply Ha | by apply IH].
Qed.

Lemma price_move_bounded_witness :
  Forall2 (λ a a', (asset_price a * 0.93 - 0.005 <= asset_price a'
                    <= asset_price a * 1.085 + 0.005)%Q)
          (assets (marketInit 0))
          (assets (generateNextTick exampleRandom 1500 (marketInit 0) 0).1.2).
Proof.
  apply (price_move_bounded exampleRandom 1500 (marketInit 0) 0).
  - intros k. unfold exampleRandom, Qle, Qlt. simpl. lia.
  - unfold marketInit, ASSETS. cbn [assets fmap list_fmap].
    repeat constructor; by vm_compute.
Defined.



(** ** More about rounding *)

Lemma isRounded_grid x : isRounded x ↔ ∃ n : Z, (x == n # 100)%Q.
Proof.
  unfold isRounded. split.
  - intros H. exists (roundHalfAway (x * (100 # 1))). by rewrite <- H at 1.
  - intros [n Hn]. rewrite (toFixed_proper 100 _ _ Hn : toFixed2 x = toFixed2 (n # 100)).
    unfold toFixed2. by rewrite toFixed_grid, Hn.
Qed.

Lemma isRounded_toFixed2 x : isRounded (toFixed2 x).
Proof. unfold isRounded. by rewrite toFixed2_idem. Qed.

Lemma isRounded_plus x y : isRounded x → isRounded y → isRounded (x + y).
Proof.
  rewrite !isRounded_grid. intros [n Hn] [m Hm]. exists (n + m)%Z.
  rewrite Hn, Hm. unfold Qeq, Qplus. simpl. lia.
Qed.

Lemma isRounded_minus x y : isRounded x → isRounded y → isRounded (x - y).
Proof.
  rewrite !isRounded_grid. intros [n Hn] [m Hm]. exists (n - m)%Z.
  rewrite Hn, Hm. unfold Qeq, Qminus, Qplus, Qopp. simpl. lia.
Qed.

Lemma isRounded_max x y : isRounded x → isRounded y → isRounded (Qmax x y).
Proof.
  intros Hx Hy. destruct (Q.max_dec x y) as [H | H];
    unfold isRounded in *.
  - by rewrite (toFixed_proper 100 _ _ H : toFixed2 (Qmax x y) = toFixed2 x), H.
  - by rewrite (toFixed_proper 100 _ _ H : toFixed2 (Qmax x y) = toFixed2 y), H.
Qed.

Lemma sliceLast_last {A} n (l : list A) x :
  0 < n → last (sliceLast n (l ++ [x])) = Some x.
Proof.
  intros Hn. unfold sliceLast. rewrite length_app. cbn [length].
  rewrite drop_app_le by lia. apply last_snoc.
Qed.

(** ** More about the traders store *)

Lemma updateBalance_accountOk traderId delta metaTime now s id trader' :
  (∀ trader, traders s !! id = Some trader → accountOk trader) →
  traders (updateBalance traderId delta metaTime now s) !! id = Some trader' →
  accountOk trader'.
Proof.
  intros Hinv. rewrite updateBalance_lookup. case_decide; [| by apply Hinv].
  destruct (traders s !! id) as [trader |] eqn:E; [| done].
  intros [= <-]. destruct (Hinv trader eq_refl) as (Hb & Hp & Hle & Hgap & H0 & Hlast & Hs).
  unfold accountOk. cbn [balance stats peakBalance maxDrawdown balanceHistory startOfDayBalance].
  set (balance' := toFixed2 (balance trader + delta)).
  set (peak' := max2 (peakBalance (stats trader)) balance').
  assert (isRounded balance') as Hb' by apply isRounded_toFixed2.
  assert (isRounded peak') as Hp' by (by apply isRounded_max).
  split_and!; try done.
  - apply Q.le_max_r.
  - eapply Qle_trans; [| apply Q.le_max_r].
    apply Qle_lteq. right. symmetry. by apply isRounded_minus.
  - eapply Qle_trans; [exact H0 | apply Q.le_max_l].
  - by rewrite sliceLast_last by lia.
Qed.

Lemma applyRegistryOp_accountOk s op :
  (∀ id trader, traders s !! id = Some trader → accountOk trader) →
  ∀ id trader, traders (applyRegistryOp s op) !! id = Some trader → accountOk trader.
Proof.
  intros Hinv id trader'.
  destruct op as [traderId delta metaTime now | traderId trade | traderId analysis];
    cbn [applyRegistryOp].
  - apply updateBalance_accountOk. intros trader. apply Hinv.
  - unfold registerTrade. destruct (traders s !! traderId) as [trader |] eqn:E;
      [| apply Hinv].
    rewrite lookup_withTrader. case_decide; [| apply Hinv].
    intros [= <-]. by apply (Hinv traderId trader E).
  - unfold setAnalysis. destruct (traders s !! traderId) as [trader |] eqn:E;
      [| apply Hinv].
    rewrite lookup_withTrader. case_decide; [| apply Hinv].
    intros [= <-]. by apply (Hinv traderId trader E).
Qed.

Lemma registry_accountOk t0 ops id trader :
  traders (runRegistry t0 ops) !! id = Some trader → accountOk trader.
Proof.
  revert id trader. induction ops as [| op ops IH] using rev_ind.
  - intros id trader H. change (runRegistry t0 []) with (tradersInit t0) in H.
    revert H. unfold tradersInit, strategies.
    cbn [foldl traders newTrader trader_id].
    rewrite !lookup_insert. repeat case_decide; intros [= <-];
      (split_and!; [by vm_compute | by vm_compute | by vm_compute | by vm_compute
                   | by vm_compute | done | done]).
  - rewrite runRegistry_snoc. by apply applyRegistryOp_accountOk.
Qed.



Lemma applyRegistryOp_other s op id :
  id ≠ opTarget op →
  traders (applyRegistryOp s op) !! id = traders s !! id.
Proof.
  intros Hne.
  destruct op as [traderId delta metaTime now | traderId trade | traderId analysis];
    cbn [applyRegistryOp opTarget] in *.
  - rewrite updateBalance_lookup. by rewrite decide_False.
  - unfold registerTrade. destruct (traders s !! traderId); [| done].
    rewrite lookup_withTrader. by rewrite decide_False.
  - unfold setAnalysis. destruct (traders s !! traderId); [| done].
    rewrite lookup_withTrader. by rewrite decide_False.
Qed.

Lemma applyRegistryOp_strategy s op id trader :
  traders s !! id = Some trader →
  ∃ trader', traders (applyRegistryOp s op) !! id = Some trader' ∧
             strategyOf trader' = strategyOf trader.
Proof.
  intros Hl.
  destruct op as [traderId delta metaTime now | traderId trade | traderId analysis];
    cbn [applyRegistryOp].
  - rewrite updateBalance_lookup, Hl. case_decide; by eexists.
  - unfold registerTrade. destruct (traders s !! traderId) as [t |] eqn:E;
      [| by exists trader].
    rewrite lookup_withTrader. case_decide; [| by exists trader].
    subst id. rewrite Hl in E. injection E as <-. by eexists.
  - unfold setAnalysis. destruct (traders s !! traderId) as [t |] eqn:E;
      [| by exists trader].
    rewrite lookup_withTrader. case_decide; [| by exists trader].
    subst id. rewrite Hl in E. injection E as <-. by eexists.
Qed.

Lemma applyRegistryOp_order s op :
  traderOrder (applyRegistryOp s op) = traderOrder s.
Proof.
  destruct op as [traderId delta metaTime now | traderId trade | traderId analysis];
    cbn [applyRegistryOp]; unfold updateBalance, registerTrade, setAnalysis;
    by destruct (traders s !! traderId).
Qed.

Lemma applyRegistryOp_absent s op id :
  traders s !! id = None → traders (applyRegistryOp s op) !! id = None.
Proof.
  intros Hl.
  destruct op as [traderId delta metaTime now | traderId trade | traderId analysis];
    cbn [applyRegistryOp].
  - rewrite updateBalance_lookup, Hl. by case_decide.
  - unfold registerTrade. destruct (traders s !! traderId) as [t |] eqn:E; [| done].
    rewrite lookup_withTrader. case_decide; [congruence | done].
  - unfold setAnalysis. destruct (traders s !! traderId) as [t |] eqn:E; [| done].
    rewrite lookup_withTrader. case_decide; [congruence | done].
Qed.

(** A registry operation touches the trader it names and no other: every
    other trader is exactly as before, no trader appears or disappears, the
    order of the traders stays, and the named trader keeps its strategy
    (id, name, risk tolerance, preferred assets, analysis style) and its
    start-of-day balance. *)
Theorem registry_frame (s : TradersState) (op : RegistryOp) :
  traderOrder (applyRegistryOp s op) = traderOrder s ∧
  (∀ id, id ≠ opTarget op → traders (applyRegistryOp s op) !! id = traders s !! id) ∧
  (∀ id, traders s !! id = None → traders (applyRegistryOp s op) !! id = None) ∧
  (∀ id trader, traders s !! id = Some trader →
     ∃ trader', traders (applyRegistryOp s op) !! id = Some trader' ∧
                strategyOf trader' = strategyOf trader).
Proof.
  split_and!.
  - apply applyRegistryOp_order.
  - intros id. apply applyRegistryOp_other.
  - intros id. apply applyRegistryOp_absent.
  - intros id trader. apply applyRegistryOp_strategy.
Qed.

Lemma registry_frame_witness :
  traders (applyRegistryOp (tradersInit 0) (OpAdjust "grok" 5 None 2000)) !! "claude"
  = traders (tradersInit 0) !! "claude".
Proof.
  apply (proj1 (proj2 (registry_frame (tradersInit 0) (OpAdjust "grok" 5 None 2000)))).
  discriminate.
Defined.

Lemma runRegistry_traderList_ids t0 ops :
  trader_id <$> traderList (runRegistry t0 ops) = ["grok"; "claude"; "chatgpt"; "gemini"] ∧
  ∀ trader, trader ∈ traderList (runRegistry t0 ops) →
            traders (runRegistry t0 ops) !! trader_id trader = Some trader.
Proof.
  assert (traderOrder (runRegistry t0 ops) = ["grok"; "claude"; "chatgpt"; "gemini"]
          ∧ ∀ id, id ∈ ["grok"; "claude"; "chatgpt"; "gemini"] →
                  ∃ trader, traders (runRegistry t0 ops) !! id = Some trader ∧
                            trader_id trader = id) as [Horder Hall].
  { induction ops as [| op ops [IHo IHl]] using rev_ind.
    - split; [by vm_compute |]. intros id Hid.
      change (runRegistry t0 []) with (tradersInit t0).
      unfold tradersInit, strategies. cbn [foldl traders newTrader trader_id].
      rewrite !lookup_insert.
      repeat (apply elem_of_cons in Hid as [-> | Hid]; [by eexists |]).
      by apply elem_of_nil in Hid.
    - rewrite runRegistry_snoc. split; [by rewrite applyRegistryOp_order |].
      intros id Hid. destruct (IHl id Hid) as (trader & Hl & Hi).
      destruct (applyRegistryOp_strategy _ op id trader Hl) as (trader' & Hl' & Hs).
      exists trader'. split; [done |]. unfold strategyOf in Hs. congruence. }
  unfold traderList. rewrite Horder.
  destruct (Hall "grok") as (t1 & H1 & I1); [set_solver |].
  destruct (Hall "claude") as (t2 & H2 & I2); [set_solver |].
  destruct (Hall "chatgpt") as (t3 & H3 & I3); [set_solver |].
  destruct (Hall "gemini") as (t4 & H4 & I4); [set_solver |].
  cbn [omap list_omap]. rewrite H1, H2, H3, H4. cbn [fmap list_fmap].
  split; [by rewrite I1, I2, I3, I4 |].
  intros trader Hin.
  repeat (apply elem_of_cons in Hin as [-> | Hin]; [congruence |]).
  by apply elem_of_nil in Hin.
Qed.


(** How one operation changes the balance and the tally of a trader. *)
Lemma applyRegistryOp_step s op id trader :
  traders s !! id = Some trader →
  ∃ trader', traders (applyRegistryOp s op) !! id = Some trader' ∧
    balance trader' =
      match op with
      | OpAdjust traderId delta _ _ =>
          if decide (traderId = id) then toFixed2 (balance trader + delta)
          else balance trader
      | _ => balance trader
      end ∧
    tally (stats trader') =
      match op with
      | OpRecord traderId trade =>
          if decide (traderId = id) then tallyWith trade (stats trader)
          else tally (stats trader)
      | _ => tally (stats trader)
      end.
Proof.
  intros Hl.
  destruct op as [traderId delta metaTime now | traderId trade | traderId analysis];
    cbn [applyRegistryOp].
  - rewrite updateBalance_lookup, Hl. case_decide; by eexists.
  - unfold registerTrade. case_decide as Hd.
    + subst id. rewrite Hl, lookup_withTrader, decide_True by done. by eexists.
    + destruct (traders s !! traderId); [| by exists trader].
      rewrite lookup_withTrader, decide_False by done. by exists trader.
  - unfold setAnalysis. destruct (traders s !! traderId) as [t |] eqn:E;
      [| by exists trader].
    rewrite lookup_withTrader. case_decide; [| by exists trader].
    subst id. rewrite Hl in E. injection E as <-. by eexists.
Qed.

Lemma runRegistry_lookup_prev t0 ops op id trader' :
  traders (runRegistry t0 (ops ++ [op])) !! id = Some trader' →
  ∃ trader, traders (runRegistry t0 ops) !! id = Some trader.
Proof.
  rewrite runRegistry_snoc. intros H.
  destruct (traders (runRegistry t0 ops) !! id) as [trader |] eqn:E; [by eexists |].
  by rewrite (applyRegistryOp_absent _ op id E) in H.
Qed.




Lemma gtOrMinusInf_irrefl a : gtOrMinusInf a a = false.
Proof.
  destruct a as [x |]; [| done]. cbn.
  destruct (gtb x x) eqn:E; [| done]. apply gtb_lt in E. lra.
Qed.

Lemma gtOrMinusInf_trans a b c :
  gtOrMinusInf a b = false → gtOrMinusInf c b = true → gtOrMinusInf a c = false.
Proof.
  destruct a as [x |], b as [y |], c as [z |]; cbn; try done.
  intros Hxy Hzy. apply gtb_lt in Hzy.
  destruct (gtb x z) eqn:E; [| done]. apply gtb_lt in E.
  destruct (gtb x y) eqn:E'; [done |].
  assert (y < x)%Q by lra. apply gtb_lt in H. congruence.
Qed.

Lemma ltOrPlusInf_irrefl a : ltOrPlusInf a a = false.
Proof.
  destruct a as [x |]; [| done]. cbn.
  destruct (ltb x x) eqn:E; [| done]. apply ltb_lt in E. lra.
Qed.

Lemma ltOrPlusInf_trans a b c :
  ltOrPlusInf a b = false → ltOrPlusInf c b = true → ltOrPlusInf a c = false.
Proof.
  destruct a as [x |], b as [y |], c as [z |]; cbn; try done.
  intros Hxy Hzy. apply ltb_lt in Hzy.
  destruct (ltb x z) eqn:E; [| done]. apply ltb_lt in E.
  destruct (ltb x y) eqn:E'; [done |].
  assert (x < y)%Q by lra. apply ltb_lt in H. congruence.
Qed.

Lemma tallyWith_ok st trades trade st' :
  tallyOk st trades → tally st' = tallyWith trade st →
  tallyOk st' (trades ++ [trade]).
Proof.
  intros (Ht & Hw & Hbest & Hworst) Heq. unfold tally, tallyWith in Heq.
  injection Heq as Hb' Hw' Ht' Hwins'. unfold tallyOk.
  rewrite Hb', Hw', Ht', Hwins'. rewrite length_app, filter_app, length_app.
  rewrite filter_cons, filter_nil. cbn [length]. split_and!.
  - lia.
  - destruct (isWin trade) eqn:E.
    + rewrite decide_True by done. cbn [length]. lia.
    + rewrite decide_False by done. cbn [length]. lia.
  - destruct (bestTrade st) as [best |].
    + destruct Hbest as [Hin Hmax].
      destruct (gtOrMinusInf (trade_pnl trade) (trade_pnl best)) eqn:E.
      * split; [set_solver |]. intros t [Hin' | ->%list_elem_of_singleton]%elem_of_app.
        -- eapply gtOrMinusInf_trans; [by apply Hmax | done].
        -- apply gtOrMinusInf_irrefl.
      * split; [set_solver |]. intros t [Hin' | ->%list_elem_of_singleton]%elem_of_app;
          [by apply Hmax | done].
    + subst trades. split; [set_solver |].
      intros t ->%list_elem_of_singleton. apply gtOrMinusInf_irrefl.
  - destruct (worstTrade st) as [worst |].
    + destruct Hworst as [Hin Hmin].
      destruct (ltOrPlusInf (trade_pnl trade) (trade_pnl worst)) eqn:E.
      * split; [set_solver |]. intros t [Hin' | ->%list_elem_of_singleton]%elem_of_app.
        -- eapply ltOrPlusInf_trans; [by apply Hmin | done].
        -- apply ltOrPlusInf_irrefl.
      * split; [set_solver |]. intros t [Hin' | ->%list_elem_of_singleton]%elem_of_app;
          [by apply Hmin | done].
    + subst trades. split; [set_solver |].
      intros t ->%list_elem_of_singleton. apply ltOrPlusInf_irrefl.
Qed.

Lemma tallyOk_same st st' trades :
  tallyOk st trades → tally st' = tally st → tallyOk st' trades.
Proof.
  intros H Heq. unfold tally in Heq. injection Heq as Hb Hw Ht Hwins.
  unfold tallyOk. by rewrite Hb, Hw, Ht, Hwins.
Qed.

Lemma registry_tallyOk t0 ops id trader :
  traders (runRegistry t0 ops) !! id = Some trader →
  tallyOk (stats trader) (recorded id ops).
Proof.
  revert trader. induction ops as [| op ops IH] using rev_ind; intros trader' Hl.
  - change (runRegistry t0 []) with (tradersInit t0) in Hl.
    destruct (tradersInit_lookup t0 id trader' Hl) as [-> _]. by cbn.
  - destruct (runRegistry_lookup_prev t0 ops op id trader' Hl) as [trader Hprev].
    rewrite runRegistry_snoc in Hl.
    destruct (applyRegistryOp_step _ op id trader Hprev) as (t' & Hl' & _ & Htally).
    rewrite Hl in Hl'. injection Hl' as <-.
    unfold recorded. rewrite omap_app. fold (recorded id ops).
    specialize (IH trader Hprev).
    destruct op as [traderId delta metaTime now | traderId trade | traderId analysis];
      cbn [omap list_omap]; rewrite ?app_nil_r; try by eapply tallyOk_same.
    case_decide.
    + by eapply tallyWith_ok.
    + rewrite app_nil_r. by eapply tallyOk_same.
Qed.

(** After any sequence of registry operations, a trader's [totalTrades] is
    the number of trades registered for it and [wins] the number of those
    with a positive pnl; [bestTrade] and [worstTrade] are absent exactly
    when no trade was registered, and otherwise are registered trades such
    that no registered trade has a pnl above the best one's or below the
    worst one's. *)
Theorem trade_tally (t0 : Z) (ops : list RegistryOp) (id : string)
    (trader : Trader) :
  traders (runRegistry t0 ops) !! id = Some trader →
  totalTrades (stats trader) = Z.of_nat (length (recorded id ops)) ∧
  wins (stats trader) =
    Z.of_nat (length (filter (λ t, isWin t = true) (recorded id ops))) ∧
  (bestTrade (stats trader) = None ↔ recorded id ops = []) ∧
  (worstTrade (stats trader) = None ↔ recorded id ops = []) ∧
  (∀ best, bestTrade (stats trader) = Some best →
     best ∈ recorded id ops ∧
     ∀ t pnl, t ∈ recorded id ops → trade_pnl t = Some pnl →
       ∃ top, trade_pnl best = Some top ∧ (pnl <= top)%Q) ∧
  (∀ worst, worstTrade (stats trader) = Some worst →
     worst ∈ recorded id ops ∧
     ∀ t pnl, t ∈ recorded id ops → trade_pnl t = Some pnl →
       ∃ bottom, trade_pnl worst = Some bottom ∧ (bottom <= pnl)%Q).
Proof.
  intros Hl. destruct (registry_tallyOk t0 ops id trader Hl) as (Ht & Hw & Hb & Hwo).
  split_and!; try done.
  - destruct (bestTrade (stats trader)) as [best |]; [| done].
    split; [done |]. intros Hnil. rewrite Hnil in Hb.
    destruct Hb as [Hin _]. by apply elem_of_nil in Hin.
  - destruct (worstTrade (stats trader)) as [worst |]; [| done].
    split; [done |]. intros Hnil. rewrite Hnil in Hwo.
    destruct Hwo as [Hin _]. by apply elem_of_nil in Hin.
  - intros best Hbest. rewrite Hbest in Hb. destruct Hb as [Hin Hmax].
    split; [done |]. intros t pnl Ht' Hp. specialize (Hmax t Ht').
    rewrite Hp in Hmax. destruct (trade_pnl best) as [top |]; [| done].
    exists top. split; [done |]. cbn in Hmax.
    destruct (Qlt_le_dec top pnl) as [Hlt | Hle]; [| done].
    apply gtb_lt in Hlt. congruence.
  - intros worst Hworst. rewrite Hworst in Hwo. destruct Hwo as [Hin Hmin].
    split; [done |]. intros t pnl Ht' Hp. specialize (Hmin t Ht').
    rewrite Hp in Hmin. destruct (trade_pnl worst) as [bottom |]; [| done].
    exists bottom. split; [done |]. cbn in Hmin.
    destruct (Qlt_le_dec pnl bottom) as [Hlt | Hle]; [| done].
    apply ltb_lt in Hlt. congruence.
Qed.

Lemma trade_tally_witness :
  ∃ trader,
    traders (runRegistry 0 exampleRegistryOps) !! "grok" = Some trader ∧
    totalTrades (stats trader) = 1%Z ∧ bestTrade (stats trader) = Some exampleClosed.
Proof.
  eexists. split; [vm_compute; reflexivity |]. split.
  - refine (proj1 (trade_tally 0%Z exampleRegistryOps "grok" _ _)).
    vm_compute. reflexivity.
  - vm_compute. reflexivity.
Defined.

(** ** More about the orchestration *)

Lemma completes_ret {A} J (a : A) : completes J (ret a).
Proof. intros w Hw. by exists a, w. Qed.

Lemma completes_bind {A B} J (m : Sim A) (f : A → Sim B) :
  completes J m → (∀ a, completes J (f a)) → completes J (bind m f).
Proof.
  intros Hm Hf w Hw. unfold bind.
  destruct (Hm w Hw) as (a & w1 & -> & Hw1). by apply Hf.
Qed.

Lemma completes_forEach {A} J (f : A → Sim unit) (l : list A) :
  (∀ x, completes J (f x)) → completes J (forEach f l).
Proof.
  intros Hf. induction l as [| x rest IH]; cbn [forEach].
  - apply completes_ret.
  - apply completes_bind; [apply Hf | by intros _].
Qed.

Lemma completes_preserves {A} J (m : Sim A) :
  preserves J m → (∀ w, J w → ∃ a w', m w = Done a w') → completes J m.
Proof.
  intros Hp Hd w Hw. destruct (Hd w Hw) as (a & w' & E).
  exists a, w'. split; [done |]. specialize (Hp w Hw). by rewrite E in Hp.
Qed.

(** The index that [selectAsset] computes lies within the candidates. *)
Lemma at_index_in_range {A} (l : list A) (r : Q) :
  (0 <= r < 1)%Q → l ≠ [] →
  ∃ x, at_index l (floor (r * inject_Z (Z.of_nat (length l)))) = Some x.
Proof.
  intros [Hr0 Hr1] Hl. unfold at_index, floor.
  set (n := Z.of_nat (length l)).
  assert (0 < n)%Z as Hn by (destruct l; [done | cbn in n; lia]).
  assert (0 < inject_Z n)%Q as Hn' by (by rewrite (Zlt_Qlt 0 n) in Hn).
  assert (0 ≤ Qfloor (r * inject_Z n))%Z as Hlo.
  { apply Qfloor_lower. change (inject_Z 0) with 0%Q.
    apply Qmult_le_0_compat; lra. }
  assert (Qfloor (r * inject_Z n) < n)%Z as Hhi.
  { rewrite Zlt_Qlt. eapply Qle_lt_trans; [apply Qfloor_le |].
    rewrite <- (Qmult_1_l (inject_Z n)) at 2.
    apply Qmult_lt_compat_r; lra. }
  destruct (Z.ltb_spec (Qfloor (r * inject_Z n)) 0) as [? | _]; [lia |].
  apply lookup_lt_is_Some. subst n. lia.
Qed.

Section MoreDashboard.
Variable random : nat → Q.
Variable numberToString : Q → string.

(** With draws in [0, 1) and a market that lists assets,
    [maybeOpenTrade] does not throw. *)
Lemma maybeOpenTrade_completes trader timestamp :
  inUnitInterval random →
  completes hasAssets (maybeOpenTrade random numberToString trader timestamp).
Proof.
  intros Hr. apply completes_preserves.
  - intros w Hw. unfold hasAssets.
    by destruct (maybeOpenTrade_ledger random numberToString trader timestamp w) as [-> _].
  - intros w Hw.
    unfold maybeOpenTrade, selectAsset, bind, getWorld, rand, ret, throw,
      onTrades, onTraders.
    destruct (decide (3 ≤ _)); [by eexists _, _ |].
    cbn [drawn marketStore tradersStore tradesStore].
    destruct (negb _); [by eexists _, _ |].
    cbn [drawn marketStore tradersStore tradesStore].
    destruct (at_index _ _) as [asset |] eqn:Hsel; [by eexists _, _ |].
    exfalso.
    match type of Hsel with
    | at_index ?l (floor (?r * _)) = None =>
        destruct (at_index_in_range l r) as [x Hx]
    end.
    + apply Hr.
    + destruct (decide (length _ = 0)) as [_ | Hne]; [exact Hw |].
      intros Hnil. by rewrite Hnil in Hne.
    + congruence.
Qed.

(** One iteration of the closing loop never throws: the trade that
    [closeTrade] returns always carries its [pnl]. *)
Lemma maybeCloseOne_completes J trader timestamp prices trade :
  preserves J (maybeCloseOne random trader timestamp prices trade) →
  completes J (maybeCloseOne random trader timestamp prices trade).
Proof.
  intros Hp. apply completes_preserves; [done |]. intros w _.
  unfold maybeCloseOne, bind, getWorld, rand, ret, throw, onTrades, onTraders.
  destruct (_ || _).
  - cbn [negb]. destruct (closeTrade _ _ _ _) as [[closedTrade |] s'] eqn:E;
      [| by eexists _, _].
    apply closeTrade_pnl in E as (t & _ & _ & ->). cbn [closedOf trade_pnl].
    by eexists _, _.
  - destruct (negb _); [by eexists _, _ |].
    cbn [drawn marketStore tradersStore tradesStore].
    destruct (closeTrade _ _ _ _) as [[closedTrade |] s'] eqn:E;
      [| by eexists _, _].
    apply closeTrade_pnl in E as (t & _ & _ & ->). cbn [closedOf trade_pnl].
    by eexists _, _.
Qed.

Lemma maybeCloseOne_hasAssets trader timestamp prices trade :
  preserves hasAssets (maybeCloseOne random trader timestamp prices trade).
Proof.
  intros w Hw. unfold hasAssets.
  by destruct (maybeCloseOne_ledger random trader timestamp prices trade w) as [-> _].
Qed.

Lemma marketTick_completes now : completes hasAssets (marketTick random now).
Proof.
  intros w Hw. unfold marketTick.
  pose proof (generateNextTick_assets random now (marketStore w) (drawn w)) as Ha.
  pose proof (advanceAssets_Forall2 random (λ _ _, True) now ltac:(done)
                (assets (marketStore w)) (drawn w)) as Hlen%Forall2_length.
  destruct (generateNextTick _ _ _ _) as [[snapshot m] k].
  eexists _, _. split; [done |]. unfold hasAssets in *.
  cbn [marketStore fst snd] in *. rewrite Ha. intros Hnil.
  rewrite Hnil in Hlen. by destruct (assets (marketStore w)).
Qed.

Lemma runSimulationTick_completes now :
  inUnitInterval random →
  completes hasAssets (runSimulationTick random numberToString now).
Proof.
  intros Hr. unfold runSimulationTick.
  apply completes_bind; [apply marketTick_completes |]. intros snapshot.
  apply completes_bind; [intros w Hw; by exists w, w |]. intros w0.
  apply completes_forEach. intros trader.
  apply completes_bind; [| intros _; by apply maybeOpenTrade_completes].
  unfold maybeCloseTrades.
  apply completes_bind; [intros w Hw; by exists w, w |]. intros w1.
  apply completes_forEach. intros trade.
  apply maybeCloseOne_completes, maybeCloseOne_hasAssets.
Qed.

End MoreDashboard.

(** With random draws in [0, 1), as those of [Math.random()], a simulation
    tick never throws from a world whose market lists at least one asset,
    and the market still lists assets afterwards; so no tick of the
    simulation throws. *)
Theorem tick_never_throws (random : nat → Q) (numberToString : Q → string) :
  inUnitInterval random →
  (∀ now w, assets (marketStore w) ≠ [] →
     ∃ w', runSimulationTick random numberToString now w = Done tt w' ∧
           assets (marketStore w') ≠ []) ∧
  (∀ t0 now1 now2 nows now,
     ∃ w', runSimulationTick random numberToString now
             (simulation random numberToString t0 now1 now2 nows) = Done tt w').
Proof.
  intros Hr.
  assert (∀ now w, hasAssets w →
            ∃ w', runSimulationTick random numberToString now w = Done tt w' ∧
                  hasAssets w') as Htick.
  { intros now w Hw.
    destruct (runSimulationTick_completes random numberToString now Hr w Hw)
      as ([] & w' & E & Hw'). by exists w'. }
  split; [exact Htick |].
  intros t0 now1 now2 nows now.
  assert (hasAssets (simulation random numberToString t0 now1 now2 nows)) as Hsim.
  { unfold simulation. apply runTicks_preserves.
    - intros now' w Hw. by destruct (Htick now' w Hw) as (w' & -> & Hw').
    - unfold onMounted, bind.
      destruct (marketTick_completes random now1 (worldInit t0)) as (a & w1 & -> & Hw1);
        [done |].
      by destruct (Htick now2 w1 Hw1) as (w' & -> & Hw'). }
  destruct (Htick now _ Hsim) as (w' & E & _). by exists w'.
Qed.

Lemma tick_never_throws_witness :
  ∃ w', runSimulationTick exampleRandom toFixed2String 5000
          (simulation exampleRandom toFixed2String 0 1000 2000 [3000; 4000]%Z)
        = Done tt w'.
Proof.
  apply (proj2 (tick_never_throws exampleRandom toFixed2String
                  ltac:(intros k; unfold exampleRandom, Qle, Qlt; simpl; lia))
           0%Z 1000%Z 2000%Z [3000; 4000]%Z 5000%Z).
Defined.

Lemma filter_delete_other {A} (P : A → Prop) `{∀ x, Decision (P x)}
    (l : list A) (i : nat) (x : A) :
  l !! i = Some x → ¬ P x → filter P (delete i l) = filter P l.
Proof.
  intros Hl Hx. rewrite <- (take_drop_middle l i x Hl) at 2.
  rewrite delete_take_drop, !filter_app, filter_cons. by rewrite decide_False.
Qed.

Lemma uniqueIds_same (l : list Trade) (x y : Trade) :
  uniqueIds l → x ∈ l → y ∈ l → trade_id y = trade_id x → y = x.
Proof.
  intros Hu [j Hj]%list_elem_of_lookup_1 [i Hi]%list_elem_of_lookup_1 Heq.
  assert (i = j) as ->; [| congruence].
  eapply NoDup_lookup; [exact Hu | |]; rewrite list_lookup_fmap.
  - by rewrite Hi.
  - rewrite Hj. cbn. by rewrite Heq.
Qed.

(** In a list with distinct ids, a trade is the first one carrying its id,
    and removing it leaves no trade with that id. *)
Lemma uniqueIds_find (l : list Trade) (x : Trade) :
  uniqueIds l → x ∈ l →
  ∃ index, list_find (λ t, trade_id t = trade_id x) l = Some (index, x) ∧
           ∀ t, t ∈ delete index l → trade_id t ≠ trade_id x.
Proof.
  intros Hu Hin.
  destruct (list_find (λ t, trade_id t = trade_id x) l) as [[index y] |] eqn:E.
  - apply list_find_Some in E as (Hl & Hid & _).
    assert (y = x) as ->.
    { apply (uniqueIds_same l); [done | done | by eapply list_elem_of_lookup_2 | done]. }
    exists index. split; [done |]. intros t Ht Heq.
    unfold uniqueIds in Hu. rewrite <- (take_drop_middle _ _ _ Hl) in Hu.
    rewrite fmap_app, fmap_cons in Hu.
    apply NoDup_app in Hu as (_ & Hleft & Hright).
    apply NoDup_cons in Hright as [Hnot _].
    rewrite delete_take_drop in Ht. apply elem_of_app in Ht as [Ht | Ht].
    + apply (Hleft (trade_id t)); [by apply list_elem_of_fmap_2 |].
      rewrite Heq. apply elem_of_cons. by left.
    + apply Hnot. rewrite <- Heq. by apply list_elem_of_fmap_2.
  - apply list_find_None in E. rewrite Forall_forall in E. by destruct (E x Hin).
Qed.

Section ExitPolicy.
Variable random : nat → Q.

(** One iteration of the closing loop either leaves the ledger alone, and
    then no bracket of the trade is hit, or is a [closeTrade] of the trade's
    id at the trade's current price. *)
Lemma maybeCloseOne_policy trader timestamp prices trade w :
  let w' := worldOf (maybeCloseOne random trader timestamp prices trade w) in
  (tradesStore w' = tradesStore w ∧ ¬ bracketHit (currentPriceOf prices trade) trade) ∨
  tradesStore w' =
    (closeTrade (trade_id trade) (currentPriceOf prices trade) timestamp
                (tradesStore w)).2.
Proof.
  unfold maybeCloseOne, bind, getWorld, rand, ret, throw, onTrades, onTraders.
  fold (currentPriceOf prices trade). set (price := currentPriceOf prices trade).
  destruct (_ || _) eqn:Hhit.
  - right. cbn [negb]. destruct (closeTrade _ _ _ _) as [[closedTrade |] s'] eqn:E;
      [destruct (trade_pnl closedTrade) |]; by cbn.
  - assert (¬ bracketHit price trade) as Hno.
    { apply orb_false_iff in Hhit as [Htp Hsl]. unfold bracketHit.
      destruct (trade_type trade);
        [rewrite decide_True in Htp, Hsl by done
        | rewrite decide_False in Htp, Hsl by done];
        unfold geb in *; intros [H | H]; apply leb_le in H; congruence. }
    destruct (negb _); [by left |].
    right. cbn [drawn marketStore tradersStore tradesStore].
    destruct (closeTrade _ _ _ _) as [[closedTrade |] s'] eqn:E;
      [destruct (trade_pnl closedTrade) |]; by cbn.
Qed.

(** The effect on the ledger of closing, by its id, a trade taken from a
    ledger [O] with distinct ids of which the open positions are a part. *)
Lemma closeTrade_of_unique (O : list Trade) s x price timestamp :
  uniqueIds O → x ∈ O → sublist (openPositions s) O →
  let s' := (closeTrade (trade_id x) price timestamp s).2 in
  sublist (openPositions s') O ∧
  (∀ other, other ≠ trade_aiTrader x →
     openOf other (openPositions s') = openOf other (openPositions s)) ∧
  (∀ t, t ∈ openPositions s' → t ∈ openPositions s ∧ t ≠ x).
Proof.
  intros Hu HxO Hsub. unfold closeTrade.
  destruct (list_find _ _) as [[index y] |] eqn:E; cbn [snd openPositions].
  - assert (uniqueIds (openPositions s)) as Hu'.
    { eapply sublist_NoDup; [exact Hu | by apply fmap_sublist]. }
    pose proof E as E'. apply list_find_Some in E' as (Hl & Hid & _).
    assert (y ∈ openPositions s) as Hy by (by eapply list_elem_of_lookup_2).
    assert (y = x) as ->.
    { apply (uniqueIds_same O); [done | done | by eapply elem_of_sublist | done]. }
    destruct (uniqueIds_find _ x Hu' Hy) as (index' & E2 & Hgone).
    rewrite E in E2. injection E2 as <-.
    split_and!.
    + etrans; [apply sublist_delete | done].
    + intros other Hne. unfold openOf.
      apply (filter_delete_other _ _ index x Hl). congruence.
    + intros t Ht. split.
      * eapply elem_of_sublist; [done | apply sublist_delete].
      * intros ->. by destruct (Hgone x Ht).
  - apply list_find_None in E. rewrite Forall_forall in E.
    split_and!; [done | done |]. intros t Ht. split; [done |].
    intros ->. by destruct (E x Ht).
Qed.

(** The closing loop over trades of one trader taken from a ledger [O]
    with distinct ids. *)
Lemma closing_loop trader timestamp prices (O : list Trade) (rest : list Trade) w :
  uniqueIds O →
  Forall (λ x, x ∈ O ∧ trade_aiTrader x = trader_id trader) rest →
  sublist (openPositions (tradesStore w)) O →
  (∀ other, other ≠ trader_id trader →
     openOf other (openPositions (tradesStore w)) = openOf other O) →
  (∀ t, t ∈ openPositions (tradesStore w) → trade_aiTrader t = trader_id trader →
     t ∈ rest ∨ ¬ bracketHit (currentPriceOf prices t) t) →
  let w' := worldOf (forEach (maybeCloseOne random trader timestamp prices) rest w) in
  sublist (openPositions (tradesStore w')) O ∧
  (∀ other, other ≠ trader_id trader →
     openOf other (openPositions (tradesStore w')) = openOf other O) ∧
  (∀ t, t ∈ openPositions (tradesStore w') → trade_aiTrader t = trader_id trader →
     ¬ bracketHit (currentPriceOf prices t) t).
Proof.
  intros Hu. revert w. induction rest as [| x rest IH]; intros w Hrest Hsub Hother Hinv.
  - cbn. split_and!; [done | done |].
    intros t Ht Hid. destruct (Hinv t Ht Hid) as [Hin | ?]; [| done].
    by apply elem_of_nil in Hin.
  - apply Forall_cons in Hrest as [[HxO Hxid] Hrest].
    cbn [forEach]. unfold bind.
    pose proof (maybeCloseOne_policy trader timestamp prices x w) as Hstep.
    destruct (maybeCloseOne_completes random (λ _, True) trader timestamp prices x
                ltac:(done) w I) as ([] & w1 & Hd & _).
    rewrite Hd in *. cbn [worldOf] in Hstep. apply IH; [done | | |].
    + destruct Hstep as [[-> _] | ->]; [done |].
      by apply (closeTrade_of_unique O).
    + intros other Hne. destruct Hstep as [[-> _] | ->]; [by apply Hother |].
      destruct (closeTrade_of_unique O (tradesStore w) x
                  (currentPriceOf prices x) timestamp Hu HxO Hsub) as (_ & Hoth & _).
      rewrite Hoth by congruence. by apply Hother.
    + intros t Ht Htid. destruct Hstep as [[Heq Hno] | Heq]; rewrite Heq in Ht.
      * destruct (Hinv t Ht Htid) as [[-> | Hin]%elem_of_cons | ?]; auto.
      * destruct (closeTrade_of_unique O (tradesStore w) x
                    (currentPriceOf prices x) timestamp Hu HxO Hsub) as (_ & _ & Hrem).
        destruct (Hrem t Ht) as [Ht' Hne].
        destruct (Hinv t Ht' Htid) as [[-> | Hin]%elem_of_cons | ?]; auto.
Qed.

End ExitPolicy.

(** The exit policy is enforced: when the open trades have distinct ids,
    after [maybeCloseTrades] for a trader none of that trader's remaining
    open positions has its take profit or stop loss hit at the current
    price; the positions that remain were all open before, and the open
    positions of every other trader are exactly as before. *)
Theorem exits_enforced (random : nat → Q) (trader : Trader) (timestamp : Z)
    (w : World) :
  uniqueIds (openPositions (tradesStore w)) →
  let prices := assetsMap (assets (marketStore w)) in
  let w' := worldOf (maybeCloseTrades random trader timestamp w) in
  (∀ t, t ∈ openPositions (tradesStore w') →
        trade_aiTrader t = trader_id trader →
        ¬ bracketHit (currentPriceOf prices t) t) ∧
  sublist (openPositions (tradesStore w')) (openPositions (tradesStore w)) ∧
  (∀ other, other ≠ trader_id trader →
     openOf other (openPositions (tradesStore w'))
     = openOf other (openPositions (tradesStore w))).
Proof.
  intros Hu prices w'. subst w'. unfold maybeCloseTrades, bind, getWorld.
  fold prices.
  destruct (closing_loop random trader timestamp prices (openPositions (tradesStore w))
              (openOf (trader_id trader) (openPositions (tradesStore w))) w Hu)
    as (H1 & H2 & H3); try done.
  - apply Forall_forall. intros x Hx. unfold openOf in Hx.
    by apply list_elem_of_filter in Hx as [? ?].
  - intros t Ht Hid. left. unfold openOf. by apply list_elem_of_filter.
Qed.

Lemma exits_enforced_witness :
  sublist
    (openPositions (tradesStore (worldOf (maybeCloseTrades steadyRandom exampleTrader
                                            5000 exampleWorld))))
    (openPositions (tradesStore exampleWorld)).
Proof.
  refine (proj1 (proj2 (exits_enforced steadyRandom exampleTrader 5000 exampleWorld _))).
  apply (bool_decide_unpack _). by vm_compute.
Defined.

Section MarketClock.
Variable random : nat → Q.
Variable numberToString : Q → string.

Lemma generateNextTick_marketAfter now m k n :
  marketAfter n m → marketAfter (S n) (generateNextTick random now m k).1.2.
Proof.
  intros (Ht & Hs & Hh).
  destruct (generateNextTick_facts random now m k) as (_ & Ht' & Hs' & _).
  unfold marketAfter. rewrite Ht', Hs', Ht. split_and!; [lia | done |].
  rewrite generateNextTick_assets.
  pose proof (advanceAssets_Forall2 random
                (λ a a', length (asset_history a') = S (Nat.min 120 (length (asset_history a))))
                now (advanceAsset_history_length random now) (assets m) k) as H2.
  revert Hh H2. generalize (assets m) (advanceAssets random now (assets m) k).1.
  intros l l' Hh H2. induction H2 as [| a a' l l' Ha _ IH]; [constructor |].
  apply Forall_cons in Hh as [Hlen Hrest].
  constructor; [| by apply IH]. rewrite Ha, Hlen. lia.
Qed.

Lemma maybeCloseTrades_market trader timestamp m :
  preserves (λ w, marketStore w = m) (maybeCloseTrades random trader timestamp).
Proof.
  unfold maybeCloseTrades. apply preserves_bind; [apply preserves_getWorld |].
  intros w0. apply preserves_forEach. intros trade w <-.
  by destruct (maybeCloseOne_ledger random trader timestamp
                 (assetsMap (assets (marketStore w0))) trade w) as [-> _].
Qed.

Lemma maybeOpenTrade_market trader timestamp m :
  preserves (λ w, marketStore w = m)
            (maybeOpenTrade random numberToString trader timestamp).
Proof.
  intros w <-.
  by destruct (maybeOpenTrade_ledger random numberToString trader timestamp w) as [-> _].
Qed.

(** A simulation tick, thrown or not, leaves the market store that its
    market tick made. *)
Lemma runSimulationTick_market now w :
  marketStore (worldOf (runSimulationTick random numberToString now w)) =
    (generateNextTick random now (marketStore w) (drawn w)).1.2.
Proof.
  set (m := (generateNextTick random now (marketStore w) (drawn w)).1.2).
  assert (preserves (λ w', marketStore w' = m)
            (λ w', (let* w0 := getWorld in
                    forEach (λ trader,
                               maybeCloseTrades random trader now ;;
                               maybeOpenTrade random numberToString trader now)
                            (traderList (tradersStore w0)))%sim w')) as Hrest.
  { apply preserves_bind; [apply preserves_getWorld |].
    intros w0. apply preserves_forEach. intros trader.
    apply preserves_bind; [apply maybeCloseTrades_market |].
    intros _. apply maybeOpenTrade_market. }
  unfold runSimulationTick, bind at 1, marketTick. subst m.
  destruct (generateNextTick random now (marketStore w) (drawn w))
    as [[snapshot m1] k1] eqn:E.
  cbn [fst snd].
  assert (snapshot.1 = now) as ->.
  { pose proof (generateNextTick_facts random now (marketStore w) (drawn w)) as H.
    rewrite E in H. by destruct H as [? _]. }
  by apply (Hrest (mkWorld m1 (tradersStore w) (tradesStore w) k1)).
Qed.

Lemma simulation_snoc t0 now1 now2 nows now :
  simulation random numberToString t0 now1 now2 (nows ++ [now]) =
    worldOf (runSimulationTick random numberToString now
               (simulation random numberToString t0 now1 now2 nows)).
Proof. unfold simulation, runTicks. by rewrite foldl_app. Qed.

Lemma simulation_marketAfter t0 now1 now2 nows :
  marketAfter (2 + length nows)
              (marketStore (simulation random numberToString t0 now1 now2 nows)).
Proof.
  induction nows as [| now nows IH] using rev_ind.
  - unfold simulation, runTicks, onMounted. cbn [foldl length Nat.add].
    unfold bind, marketTick.
    pose proof (generateNextTick_marketAfter now1 (marketInit t0) 0 0) as H1.
    destruct (generateNextTick random now1 (marketStore (worldInit t0))
                (drawn (worldInit t0))) as [[snapshot m1] k1] eqn:E.
    change (marketStore (worldInit t0)) with (marketInit t0) in E.
    change (drawn (worldInit t0)) with 0 in E. rewrite E in H1. cbn [fst snd] in H1.
    rewrite runSimulationTick_market. cbn [marketStore drawn].
    apply generateNextTick_marketAfter, H1.
    split_and!; [done | done |]. cbn. repeat constructor.
  - rewrite simulation_snoc, runSimulationTick_market, length_app.
    cbn [length]. replace (2 + (length nows + 1)) with (S (2 + length nows)) by lia.
    by apply generateNextTick_marketAfter.
Qed.

End MarketClock.

(** In the running application, after [onMounted] and [n] timer ticks,
    whatever the random draws and whether or not a tick threw: the market's
    tick counter is [n + 2], the assets are still BTC, ETH, AAPL and TSLA in
    this order, and every price history holds [min (n + 3) 121] points. *)
Theorem simulation_market_clock (random : nat → Q) (numberToString : Q → string)
    (t0 now1 now2 : Z) (nows : list Z) :
  let m := marketStore (simulation random numberToString t0 now1 now2 nows) in
  tick m = Z.of_nat (length nows + 2) ∧
  asset_symbol <$> assets m = ["BTC"; "ETH"; "AAPL"; "TSLA"] ∧
  Forall (λ a, length (asset_history a) = Nat.min (length nows + 3) 121) (assets m).
Proof.
  destruct (simulation_marketAfter random numberToString t0 now1 now2 nows)
    as (Ht & Hs & Hh).
  cbv zeta. rewrite Ht, Hs. split_and!; [f_equal; lia | done |].
  eapply Forall_impl; [exact Hh |]. intros a Ha. cbn beta in Ha. lia.
Qed.

(** In the running application every asset price, and the entry price of
    every open or closed trade, is equal to its own rounding to 2 decimals,
    whatever the random draws and the clock. *)
Theorem simulation_prices_rounded (random : nat → Q) (numberToString : Q → string)
    (t0 now1 now2 : Z) (nows : list Z) :
  let w := simulation random numberToString t0 now1 now2 nows in
  Forall (λ a, toFixed2 (asset_price a) == asset_price a) (assets (marketStore w)) ∧
  Forall (λ t, toFixed2 (trade_entryPrice t) == trade_entryPrice t)
         (openPositions (tradesStore w)) ∧
  Forall (λ t, toFixed2 (trade_entryPrice t) == trade_entryPrice t)
         (history (tradesStore w)).
Proof. apply simulation_rounded. Qed.

(** When [maybeOpenTrade] throws, it has made four random draws and has
    changed none of the three stores; and it does throw when the market
    lists no asset and the trader, holding fewer than 3 positions, draws a
    number below 0.4 and so decides to trade. *)
Theorem maybeOpenTrade_throw (random : nat → Q) (numberToString : Q → string)
    (trader : Trader) (timestamp : Z) (w : World) :
  (∀ w', maybeOpenTrade random numberToString trader timestamp w = Thrown w' →
         w' = mkWorld (marketStore w) (tradersStore w) (tradesStore w) (drawn w + 4)) ∧
  (assets (marketStore w) = [] →
   openCount (trader_id trader) w < 3 →
   (random (drawn w) < 0.4)%Q →
   maybeOpenTrade random numberToString trader timestamp w =
     Thrown (mkWorld (marketStore w) (tradersStore w) (tradesStore w) (drawn w + 4))).
Proof.
  unfold maybeOpenTrade, selectAsset, bind, getWorld, rand, ret, throw,
    onTrades, onTraders, openCount.
  split.
  - intros w'. destruct (decide (3 ≤ _)); [done |].
    cbn [drawn marketStore tradersStore tradesStore].
    destruct (negb _); [done |].
    cbn [drawn marketStore tradersStore tradesStore].
    destruct (at_index _ _); [done |]. intros [= <-]. do 2 f_equal. lia.
  - intros Hempty Hlt Hr. rewrite decide_False by lia.
    cbn [drawn marketStore tradersStore tradesStore].
    apply ltb_lt in Hr. rewrite Hr. cbn [negb].
    cbn [drawn marketStore tradersStore tradesStore].
    rewrite Hempty, filter_nil. cbn [length]. rewrite decide_True by done.
    replace (at_index [] _) with (@None Asset).
    + do 2 f_equal. lia.
    + unfold at_index. by destruct (_ <? _)%Z.
Qed.

Lemma maybeOpenTrade_throw_witness :
  maybeOpenTrade steadyRandom toFixed2String exampleTrader 5000 emptyMarketWorld
  = Thrown (mkWorld (mkMarket [] 0) (tradersInit 0) tradesInit 4).
Proof.
  apply (proj2 (maybeOpenTrade_throw steadyRandom toFixed2String exampleTrader 5000
                  emptyMarketWorld)).
  - reflexivity.
  - vm_compute. lia.
  - reflexivity.
Defined.

(** The table of trades lists the open positions first, in their order,
    then the history as it is.  Each open position keeps its id and status
    and shows, as its pnl, exactly the pnl that [closeTrade] would book for
    it at the current price; when the open trades have distinct ids, that is
    the pnl of the trade that [closeTrade] returns for its id. *)
Theorem tradesForTable_rows (w : World) :
  let prices := assetsMap (assets (marketStore w)) in
  length (tradesForTable w) =
    length (openPositions (tradesStore w)) + length (history (tradesStore w)) ∧
  (∀ j, tradesForTable w !! (length (openPositions (tradesStore w)) + j)
        = history (tradesStore w) !! j) ∧
  (∀ i trade, openPositions (tradesStore w) !! i = Some trade →
     ∃ row, tradesForTable w !! i = Some row ∧
       trade_id row = trade_id trade ∧
       trade_status row = trade_status trade ∧
       (∀ timestamp,
          trade_pnl row =
            trade_pnl (closedOf trade (currentPriceOf prices trade) timestamp)) ∧
       (uniqueIds (openPositions (tradesStore w)) →
        ∀ timestamp, ∃ closedTrade s',
          closeTrade (trade_id trade) (currentPriceOf prices trade) timestamp
                     (tradesStore w) = (Some closedTrade, s') ∧
          trade_pnl row = trade_pnl closedTrade)).
Proof.
  intros prices. unfold tradesForTable. fold prices. split_and!.
  - by rewrite length_app, length_fmap.
  - intros j. rewrite lookup_app_r; rewrite length_fmap; [| lia].
    f_equal. lia.
  - intros i trade Hi.
    rewrite lookup_app_l by (rewrite length_fmap; by eapply lookup_lt_Some).
    rewrite list_lookup_fmap, Hi. cbn [fmap option_fmap option_map].
    eexists. split; [done |]. cbn [trade_id trade_status trade_pnl closedOf].
    split_and!; [done | done | done |].
    intros Hu timestamp.
    destruct (uniqueIds_find _ trade Hu (list_elem_of_lookup_2 _ _ _ Hi))
      as (index & Hfind & _).
    rewrite (closeTrade_found _ _ _ _ _ _ Hfind). by eexists _, _.
Qed.

Lemma tradesForTable_rows_witness :
  ∃ row, tradesForTable exampleWorld !! 0 = Some row ∧ trade_id row = "grok-2000".
Proof.
  destruct (proj2 (proj2 (tradesForTable_rows exampleWorld)) 0
              (default (buildTrade (examplePayload 100 1 long))
                 (openPositions (tradesStore exampleWorld) !! 0)))
    as (row & Hrow & Hid & _).
  - vm_compute. reflexivity.
  - exists row. split; [exact Hrow |]. rewrite Hid. by vm_compute.
Defined.

(** *** The stores of the running application are reached by store actions *)

Section Reachable.
Variable random : nat → Q.
Variable numberToString : Q → string.
Variable t0 : Z.

Lemma reach_createTrade p :
  preserves (storesReachable t0) (onTrades (createTrade p)).
Proof.
  apply preserves_onTrades. intros w [[ops Hl] Hr]. split; [| done].
  exists (ops ++ [OpCreate p]). cbn [tradesStore]. by rewrite runLedger_snoc, <- Hl.
Qed.

Lemma reach_closeTrade tradeId exitPrice timestamp :
  preserves (storesReachable t0) (onTrades (closeTrade tradeId exitPrice timestamp)).
Proof.
  apply preserves_onTrades. intros w [[ops Hl] Hr]. split; [| done].
  exists (ops ++ [OpClose tradeId exitPrice timestamp]). cbn [tradesStore].
  by rewrite runLedger_snoc, <- Hl.
Qed.

Lemma reach_registry op :
  preserves (storesReachable t0) (onTraders (λ s, applyRegistryOp s op)).
Proof.
  apply preserves_onTraders. intros w [Hl [ops Hr]]. split; [done |].
  exists (ops ++ [op]). cbn [tradersStore]. by rewrite runRegistry_snoc, <- Hr.
Qed.

Lemma reach_rand : preserves (storesReachable t0) (rand random).
Proof. apply preserves_rand. by intros w k. Qed.

Lemma reach_marketTick now : preserves (storesReachable t0) (marketTick random now).
Proof.
  intros w H. unfold marketTick.
  by destruct (generateNextTick _ _ _ _) as [[snapshot m] k].
Qed.

Lemma reach_maybeOpenTrade trader timestamp :
  preserves (storesReachable t0)
            (maybeOpenTrade random numberToString trader timestamp).
Proof.
  unfold maybeOpenTrade, selectAsset.
  apply preserves_bind; [apply preserves_getWorld |]. intros w0.
  destruct (decide _); [apply preserves_ret |].
  apply preserves_bind; [apply reach_rand |]. intros r1.
  destruct (negb _); [apply preserves_ret |].
  apply preserves_bind.
  { apply preserves_bind; [apply preserves_getWorld |]. intros w1.
    apply preserves_bind; [apply reach_rand |]. intros r. apply preserves_ret. }
  intros selected.
  apply preserves_bind; [apply reach_rand |]. intros r2.
  apply preserves_bind; [apply reach_rand |]. intros r3.
  destruct selected as [asset |]; [| apply preserves_throw].
  apply preserves_bind; [apply reach_createTrade |]. intros _.
  apply (reach_registry (OpSetAnalysis _ _)).
Qed.

Lemma reach_maybeCloseOne trader timestamp prices trade :
  preserves (storesReachable t0)
            (maybeCloseOne random trader timestamp prices trade).
Proof.
  unfold maybeCloseOne.
  apply preserves_bind.
  { destruct (_ || _); [apply preserves_ret |].
    apply preserves_bind; [apply reach_rand |]. intros r. apply preserves_ret. }
  intros shouldClose. destruct (negb _); [apply preserves_ret |].
  apply preserves_bind; [apply reach_closeTrade |].
  intros [closedTrade |]; [| apply preserves_ret].
  destruct (trade_pnl closedTrade) as [pnl |]; [| apply preserves_throw].
  apply preserves_bind; [apply (reach_registry (OpAdjust _ _ _ _)) |]. intros _.
  apply preserves_bind; [apply (reach_registry (OpRecord _ _)) |]. intros _.
  apply (reach_registry (OpSetAnalysis _ _)).
Qed.

Lemma reach_runSimulationTick now :
  preserves (storesReachable t0) (runSimulationTick random numberToString now).
Proof.
  unfold runSimulationTick.
  apply preserves_bind; [apply reach_marketTick |]. intros snapshot.
  apply preserves_bind; [apply preserves_getWorld |]. intros w0.
  apply preserves_forEach. intros trader.
  apply preserves_bind; [| intros _; apply reach_maybeOpenTrade].
  unfold maybeCloseTrades.
  apply preserves_bind; [apply preserves_getWorld |]. intros w1.
  apply preserves_forEach. intros trade. apply reach_maybeCloseOne.
Qed.

Lemma simulation_reachable now1 now2 nows :
  storesReachable t0 (simulation random numberToString t0 now1 now2 nows).
Proof.
  unfold simulation. apply runTicks_preserves; [apply reach_runSimulationTick |].
  unfold onMounted.
  apply (preserves_bind (storesReachable t0) (marketTick random now1)
           (λ _, runSimulationTick random numberToString now2)).
  - apply reach_marketTick.
  - intros _. apply reach_runSimulationTick.
  - split; by exists [].
Qed.

End Reachable.


(** ** Trade ids are distinct when the clock advances *)

Lemma tradeIdOf_inj a b (t1 t2 : Z) :
  a ∈ traderIds → b ∈ traderIds →
  tradeIdOf a t1 = tradeIdOf b t2 → a = b ∧ t1 = t2.
Proof.
  intros Ha Hb H.
  assert (a = b) as ->.
  { unfold traderIds in *.
    repeat (apply elem_of_cons in Ha as [-> | Ha]);
      try (by apply elem_of_nil in Ha);
      repeat (apply elem_of_cons in Hb as [-> | Hb]);
      try (by apply elem_of_nil in Hb);
      try done; by cbn in H. }
  split; [done |]. by apply tradeIdOf_same_trader in H.
Qed.

Lemma stamped_sublist T served l l' :
  sublist l' l → stamped T served l → stamped T served l'.
Proof.
  intros Hsub [Hu Hall]. split.
  - eapply sublist_NoDup; [exact Hu | by apply fmap_sublist].
  - rewrite Forall_forall in *. intros t Ht. apply Hall.
    by eapply elem_of_sublist.
Qed.

Lemma stamped_weaken T served served' l :
  served ⊆ served' → stamped T served l → stamped T served' l.
Proof.
  intros Hsub [Hu Hall]. split; [done |].
  eapply Forall_impl; [exact Hall |].
  intros t (? & ? & [? | [? ?]]); (split_and!; [done | done |]); [by left |].
  right. split; [done |]. by apply Hsub.
Qed.

Lemma stamped_later T T' served served' l :
  (T < T')%Z → stamped T served l → stamped T' served' l.
Proof.
  intros Hlt [Hu Hall]. split; [done |].
  eapply Forall_impl; [exact Hall |]. intros t (? & ? & [? | [? ?]]);
    (split_and!; [done | done | left; lia]).
Qed.

(** A trade made now for a trader not yet served keeps the stamps. *)
Lemma stamped_create T served l p :
  p_traderId p ∈ traderIds → p_traderId p ∉ served → p_timestamp p = T →
  stamped T served l →
  stamped T (served ++ [p_traderId p]) (l ++ [buildTrade p]).
Proof.
  intros Hin Hnot HT [Hu Hall]. split.
  - unfold uniqueIds. rewrite fmap_app. apply NoDup_app. split_and!; [done | |].
    + intros id Hid Hnew. apply list_elem_of_singleton in Hnew.
      apply list_elem_of_fmap in Hid as (t & -> & Ht).
      rewrite Forall_forall in Hall. destruct (Hall t Ht) as (Htid & Hfour & Hts).
      rewrite Htid in Hnew. cbn [buildTrade trade_id] in Hnew.
      apply tradeIdOf_inj in Hnew as [Ha Hb]; [| done | done].
      destruct Hts as [? | [_ Hserved]]; [lia |]. apply Hnot. by rewrite <- Ha.
    + apply NoDup_singleton.
  - apply Forall_app. split.
    + eapply Forall_impl; [exact Hall |].
      intros t (? & ? & [? | [? ?]]); (split_and!; [done | done |]); [by left |].
      right. split; [done |]. apply elem_of_app. by left.
    + constructor; [| done]. cbn [buildTrade trade_id trade_aiTrader trade_timestamp].
      split_and!; [done | done |]. right. split; [done |].
      apply elem_of_app. right. by apply list_elem_of_singleton.
Qed.

(** A loop whose invariant grows with the elements already visited. *)
Lemma forEach_indexed {A} (J : list A → World → Prop) (f : A → Sim unit)
    (l : list A) :
  (∀ pre x post w, l = pre ++ x :: post → J pre w → J (pre ++ [x]) (worldOf (f x w))) →
  ∀ w, J [] w → ∃ pre post, l = pre ++ post ∧ J pre (worldOf (forEach f l w)).
Proof.
  intros Hstep.
  assert (∀ rest pre w, l = pre ++ rest → J pre w →
            ∃ pre' post, l = pre' ++ post ∧ J pre' (worldOf (forEach f rest w))) as H.
  { induction rest as [| x rest IH]; intros pre w Hl Hw.
    - exists pre, []. by split.
    - cbn [forEach]. unfold bind.
      pose proof (Hstep pre x rest w Hl Hw) as Hx.
      destruct (f x w) as [[] w1 | w1]; cbn [worldOf] in Hx.
      + apply (IH (pre ++ [x])); [by rewrite <- app_assoc | done].
      + exists (pre ++ [x]), rest. split; [by rewrite <- app_assoc | done]. }
  intros w Hw. by apply (H l [] w).
Qed.

Section UniqueIds.
Variable random : nat → Q.
Variable numberToString : Q → string.

Lemma maybeCloseTrades_stamped T served trader timestamp :
  preserves (λ w, stamped T served (openPositions (tradesStore w)))
            (maybeCloseTrades random trader timestamp).
Proof.
  unfold maybeCloseTrades. apply preserves_bind; [apply preserves_getWorld |].
  intros w0. apply preserves_forEach. intros trade w Hw.
  destruct (maybeCloseOne_ledger random trader timestamp
              (assetsMap (assets (marketStore w0))) trade w) as [_ [-> | [price ->]]];
    [done |].
  eapply stamped_sublist; [apply closeTrade_open_sublist | done].
Qed.

Lemma maybeOpenTrade_stamped T served trader w :
  trader_id trader ∈ traderIds → trader_id trader ∉ served →
  stamped T served (openPositions (tradesStore w)) →
  stamped T (served ++ [trader_id trader])
    (openPositions (tradesStore (worldOf (maybeOpenTrade random numberToString
                                            trader T w)))).
Proof.
  intros Hin Hnot Hw.
  destruct (maybeOpenTrade_ledger random numberToString trader T w)
    as [_ [-> | [_ (asset & size & type & analysis & _ & ->)]]].
  - eapply stamped_weaken; [| done]. set_solver.
  - cbn [createTrade snd openPositions]. by apply stamped_create.
Qed.

(** One simulation tick at a time later than every stamp keeps the open
    trades stamped, now up to the time of the tick. *)
Lemma runSimulationTick_stamped t0 T now w :
  (T < now)%Z → storesReachable t0 w →
  stamped T traderIds (openPositions (tradesStore w)) →
  stamped now traderIds
    (openPositions (tradesStore (worldOf (runSimulationTick random numberToString
                                            now w)))).
Proof.
  intros Hlt [_ [rops Hreach]] Hw.
  destruct (runRegistry_traderList_ids t0 rops) as [Hids _].
  rewrite <- Hreach in Hids.
  unfold runSimulationTick, bind at 1, marketTick.
  pose proof (generateNextTick_facts random now (marketStore w) (drawn w)) as Hshape.
  destruct (generateNextTick random now (marketStore w) (drawn w))
    as [[snapshot m1] k1].
  destruct Hshape as [Hnow _]. cbn [fst snd] in Hnow. cbn [fst]. rewrite Hnow.
  unfold bind at 1, getWorld. cbn [tradersStore].
  set (w1 := mkWorld m1 (tradersStore w) (tradesStore w) k1).
  destruct (forEach_indexed
              (λ pre w', stamped now (trader_id <$> pre) (openPositions (tradesStore w')))
              (λ trader, (maybeCloseTrades random trader now ;;
                          maybeOpenTrade random numberToString trader now)%sim)
              (traderList (tradersStore w))) with (w := w1)
    as (pre & post & Hsplit & Hfinal).
  - intros pre x post w' Hsplit Hw'. unfold bind.
    pose proof (maybeCloseTrades_stamped now (trader_id <$> pre) x now w' Hw') as Hc.
    assert (NoDup (trader_id <$> traderList (tradersStore w))) as Hnd.
    { rewrite Hids. apply (bool_decide_unpack _). by vm_compute. }
    assert (trader_id x ∈ traderIds ∧ trader_id x ∉ trader_id <$> pre) as [Hin Hnot].
    { rewrite Hsplit, fmap_app, fmap_cons in Hnd, Hids.
      apply NoDup_app in Hnd as (_ & Hdisj & _). split.
      - unfold traderIds. rewrite <- Hids. set_solver.
      - intros Hx. apply (Hdisj _ Hx). set_solver. }
    rewrite fmap_app. cbn [fmap list_fmap].
    destruct (maybeCloseTrades random x now w') as [[] w2 | w2]; cbn [worldOf] in *.
    + by apply maybeOpenTrade_stamped.
    + eapply stamped_weaken; [| done]. set_solver.
  - cbn [fmap list_fmap]. subst w1. cbn [tradesStore].
    by apply (stamped_later T now traderIds []).
  - eapply stamped_weaken; [| exact Hfinal].
    unfold traderIds. rewrite <- Hids, Hsplit, fmap_app. set_solver.
Qed.

End UniqueIds.

(** In the running application, when the simulation ticks happen at
    strictly increasing times, the open trades have pairwise distinct ids,
    and every open trade's id is made of its own trader, one of the four,
    and its own timestamp. *)
Theorem simulation_unique_ids (random : nat → Q) (numberToString : Q → string)
    (t0 now1 now2 : Z) (nows : list Z) :
  StronglySorted Z.lt (now2 :: nows) →
  let l := openPositions (tradesStore (simulation random numberToString
                                         t0 now1 now2 nows)) in
  uniqueIds l ∧
  Forall (λ t, trade_id t = tradeIdOf (trade_aiTrader t) (trade_timestamp t) ∧
               trade_aiTrader t ∈ traderIds ∧
               (trade_timestamp t ≤ default now2 (last nows))%Z) l.
Proof.
  intros Hsorted.
  assert (stamped (default now2 (last nows)) traderIds
            (openPositions (tradesStore (simulation random numberToString
                                           t0 now1 now2 nows)))) as [Hu Hall].
  { induction nows as [| now nows IH] using rev_ind.
    - cbn [last default]. unfold simulation, runTicks, onMounted. cbn [foldl].
      unfold bind at 1.
      pose proof (reach_marketTick random t0 now1 (worldInit t0)
                    ltac:(split; by exists [])) as Hreach.
      pose proof (marketTick_ledger random now1 (worldInit t0)) as Hledger.
      destruct (marketTick random now1 (worldInit t0)) as [snapshot w1 | w1] eqn:E;
        cbn [worldOf] in *.
      + apply (runSimulationTick_stamped random numberToString t0 (now2 - 1));
          [lia | done |].
        rewrite Hledger. split; [apply NoDup_nil_2 | constructor].
      + unfold marketTick in E.
        by destruct (generateNextTick _ _ _ _) as [[snapshot m] k].
    - rewrite simulation_snoc, last_snoc. cbn [default].
      change (now2 :: nows ++ [now]) with ((now2 :: nows) ++ [now]) in Hsorted.
      apply StronglySorted_app in Hsorted as (Hlt & Hs & _).
      apply (runSimulationTick_stamped random numberToString t0
               (default now2 (last nows))).
      + apply Hlt; [| by apply list_elem_of_singleton].
        destruct (last nows) as [x |] eqn:El; cbn [default]; [| set_solver].
        apply elem_of_cons. right. apply last_Some in El as [l' ->]. set_solver.
      + apply simulation_reachable.
      + by apply IH. }
  split; [done |].
  eapply Forall_impl; [exact Hall |].
  intros t (? & ? & [? | [? ?]]); split_and!; auto; lia.
Qed.

Lemma simulation_unique_ids_witness :
  uniqueIds (openPositions (tradesStore exampleWorld)).
Proof.
  refine (proj1 (simulation_unique_ids steadyRandom toFixed2String 0 1000 2000
                   [3000; 4000]%Z _)).
  repeat constructor.
Defined.

(** ** The books balance *)

Lemma applyRegistryOp_step_back s op id trader' :
  traders (applyRegistryOp s op) !! id = Some trader' →
  ∃ trader, traders s !! id = Some trader ∧
    balance trader' =
      match op with
      | OpAdjust traderId delta _ _ =>
          if decide (traderId = id) then toFixed2 (balance trader + delta)
          else balance trader
      | _ => balance trader
      end ∧
    tally (stats trader') =
      match op with
      | OpRecord traderId trade =>
          if decide (traderId = id) then tallyWith trade (stats trader)
          else tally (stats trader)
      | _ => tally (stats trader)
      end.
Proof.
  intros H. destruct (traders s !! id) as [trader |] eqn:E.
  - destruct (applyRegistryOp_step s op id trader E) as (t' & Hl & Hb & Ht).
    rewrite H in Hl. injection Hl as <-. by exists trader.
  - by rewrite (applyRegistryOp_absent s op id E) in H.
Qed.

Section Books.
Variable random : nat → Q.
Variable numberToString : Q → string.

(** What one iteration of the closing loop does to the two stores. *)
Lemma maybeCloseOne_effect trader timestamp prices trade w :
  let w' := worldOf (maybeCloseOne random trader timestamp prices trade w) in
  (tradesStore w' = tradesStore w ∧ tradersStore w' = tradersStore w) ∨
  ∃ closedTrade pnl summary,
    closeTrade (trade_id trade) (currentPriceOf prices trade) timestamp (tradesStore w)
      = (Some closedTrade, tradesStore w') ∧
    trade_pnl closedTrade = Some pnl ∧
    tradersStore w' =
      applyRegistryOp
        (applyRegistryOp
           (applyRegistryOp (tradersStore w)
              (OpAdjust (trader_id trader) pnl (Some timestamp) timestamp))
           (OpRecord (trader_id trader) closedTrade))
        (OpSetAnalysis (trader_id trader) summary).
Proof.
  unfold maybeCloseOne, bind, getWorld, rand, ret, throw, onTrades, onTraders.
  fold (currentPriceOf prices trade). set (price := currentPriceOf prices trade).
  destruct (_ || _).
  - cbn [negb]. destruct (closeTrade _ _ _ _) as [[closedTrade |] s'] eqn:E.
    + pose proof E as E'. apply closeTrade_pnl in E' as (t & _ & _ & ->).
      cbn [closedOf trade_pnl worldOf tradesStore tradersStore]. right.
      by eexists _, _, _.
    + left. cbn [worldOf tradesStore tradersStore]. split; [| done].
      unfold closeTrade in E. destruct (list_find _ _) as [[? ?] |]; congruence.
  - destruct (negb _); [by left |].
    cbn [drawn marketStore tradersStore tradesStore].
    destruct (closeTrade _ _ _ _) as [[closedTrade |] s'] eqn:E.
    + pose proof E as E'. apply closeTrade_pnl in E' as (t & _ & _ & ->).
      cbn [closedOf trade_pnl worldOf tradesStore tradersStore]. right.
      by eexists _, _, _.
    + left. cbn [worldOf tradesStore tradersStore]. split; [| done].
      unfold closeTrade in E. destruct (list_find _ _) as [[? ?] |]; congruence.
Qed.

(** Closing, in a ledger with distinct ids, a trade of the trader keeps
    the books balanced. *)
Lemma maybeCloseOne_books t0 trader timestamp prices (O : list Trade) x w :
  uniqueIds O → x ∈ O → trade_aiTrader x = trader_id trader →
  sublist (openPositions (tradesStore w)) O →
  storesReachable t0 w → booksBalanced w →
  booksBalanced (worldOf (maybeCloseOne random trader timestamp prices x w)).
Proof.
  intros Hu HxO Hxid Hsub [[lops Hlops] [rops Hrops]] Hbooks.
  destruct (maybeCloseOne_effect trader timestamp prices x w)
    as [[Ht Hr] | (c & pnl & summary & Hclose & Hpnl & Hr)].
  { unfold booksBalanced, closedBy in *. by rewrite Ht, Hr. }
  set (w' := worldOf (maybeCloseOne random trader timestamp prices x w)) in *.
  pose proof Hclose as Hc. unfold closeTrade in Hc.
  destruct (list_find _ _) as [[index y] |] eqn:E; [| done].
  apply pair_equal_spec in Hc as [Hc Hs']. apply (inj Some) in Hc.
  apply list_find_Some in E as (Hl & Hid & _).
  assert (y = x) as ->.
  { apply (uniqueIds_same O); [done | done | | done].
    eapply elem_of_sublist; [by eapply list_elem_of_lookup_2 | done]. }
  subst c. set (c := closedOf x (currentPriceOf prices x) timestamp) in *.
  intros Hguard id trader3 Hl3. unfold closedBy in *. rewrite <- Hs' in Hguard |- *.
  cbn [history] in Hguard |- *. unfold sliceFirst in *.
  assert (length (history (tradesStore w)) < 199) as Hlen.
  { rewrite length_take in Hguard. cbn [length] in Hguard. lia. }
  rewrite take_ge by (cbn [length]; lia).
  rewrite Hr in Hl3.
  apply applyRegistryOp_step_back in Hl3 as (trader2 & Hl2 & Hb3 & Ht3).
  apply applyRegistryOp_step_back in Hl2 as (trader1 & Hl1 & Hb2 & Ht2).
  apply applyRegistryOp_step_back in Hl1 as (trader0 & Hl0 & Hb1 & Ht1).
  destruct (Hbooks ltac:(lia) id trader0 Hl0) as (Hbal & Htot & Hwins).
  unfold closedBy in Hbal, Htot, Hwins.
  assert (tally (stats trader3) =
          if decide (trader_id trader = id) then tallyWith c (stats trader0)
          else tally (stats trader0)) as Htally.
  { rewrite Ht3, Ht2. case_decide; [| done].
    unfold tallyWith. unfold tally in Ht1. injection Ht1 as -> -> -> ->. done. }
  rewrite Hb3, Hb2, Hb1. rewrite filter_cons.
  assert (trade_aiTrader c = trader_id trader) as -> by done.
  destruct (decide (trader_id trader = id)) as [Heq | Hne].
  - unfold tally, tallyWith in Htally. injection Htally as _ _ Htot' Hwins'.
    rewrite Htot', Hwins', Htot, Hwins. rewrite fmap_cons, filter_cons.
    assert (pnlOf c = pnl) as Hpc by (unfold pnlOf; by rewrite Hpnl).
    rewrite Hpc.
    change (sumQ (pnl :: ?l)) with (pnl + sumQ l)%Q.
    split_and!.
    + assert (isRounded (balance trader0 + pnl)) as Hsum.
      { apply isRounded_plus.
        - rewrite Hrops in Hl0. by destruct (registry_accountOk t0 rops id trader0 Hl0).
        - subst c. cbn [closedOf trade_pnl] in Hpnl.
          injection Hpnl as <-. apply isRounded_toFixed2. }
      unfold isRounded in Hsum. rewrite Hsum, Hbal. lra.
    + cbn [length]. lia.
    + destruct (isWin c) eqn:Ew.
      * rewrite decide_True by done. cbn [length]. lia.
      * rewrite decide_False by done. done.
  - unfold tally in Htally. injection Htally as _ _ Htot' Hwins'.
    by rewrite Htot', Hwins'.
Qed.

Lemma preserves_forEach_in {A} J (f : A → Sim unit) (l : list A) :
  (∀ x, x ∈ l → preserves J (f x)) → preserves J (forEach f l).
Proof.
  induction l as [| x rest IH]; intros Hf; cbn [forEach].
  - apply preserves_ret.
  - apply preserves_bind; [apply Hf; by left |].
    intros _. apply IH. intros y Hy. apply Hf. by right.
Qed.

Lemma booksBalanced_same w w' :
  history (tradesStore w') = history (tradesStore w) →
  (∀ id trader', traders (tradersStore w') !! id = Some trader' →
     ∃ trader, traders (tradersStore w) !! id = Some trader ∧
               balance trader' = balance trader ∧
               tally (stats trader') = tally (stats trader)) →
  booksBalanced w → booksBalanced w'.
Proof.
  intros Hh Hreg Hbooks Hguard id trader' Hl'. unfold closedBy in *.
  rewrite Hh in *. destruct (Hreg id trader' Hl') as (trader & Hl & Hb & Ht).
  destruct (Hbooks Hguard id trader Hl) as (Hbal & Htot & Hwins).
  unfold tally in Ht. injection Ht as _ _ Ht Hw. by rewrite Hb, Ht, Hw.
Qed.

Lemma maybeOpenTrade_books trader timestamp :
  preserves booksBalanced (maybeOpenTrade random numberToString trader timestamp).
Proof.
  intros w Hbooks.
  pose proof (maybeOpenTrade_ledger random numberToString trader timestamp w)
    as [_ Hledger].
  apply (booksBalanced_same w); [| | done].
  - by destruct Hledger as [-> | [_ (asset & size & type & analysis & _ & ->)]].
  - clear Hledger. revert Hbooks. intros _.
    unfold maybeOpenTrade, selectAsset, bind, getWorld, rand, ret, throw,
      onTrades, onTraders.
    destruct (decide (3 ≤ _)); [by eauto |].
    cbn [drawn marketStore tradersStore tradesStore].
    destruct (negb _); [by eauto |].
    cbn [drawn marketStore tradersStore tradesStore].
    destruct (at_index _ _) as [asset |]; [| by eauto].
    cbn [worldOf createTrade tradersStore].
    intros id trader' Hl'.
    apply (applyRegistryOp_step_back _ (OpSetAnalysis _ _)) in Hl'
      as (trader0 & ? & ? & ?). by exists trader0.
Qed.

Lemma marketTick_books now : preserves booksBalanced (marketTick random now).
Proof.
  intros w Hbooks. apply (booksBalanced_same w); [| | done];
    unfold marketTick; destruct (generateNextTick _ _ _ _) as [[snapshot m] k];
    [done | by eauto].
Qed.

Lemma maybeCloseTrades_ticking t0 T served trader timestamp :
  preserves (ticking t0 T served) (maybeCloseTrades random trader timestamp).
Proof.
  intros w (Hst & Hreach & Hbooks). unfold maybeCloseTrades, bind, getWorld.
  set (O := openPositions (tradesStore w)).
  set (prices := assetsMap (assets (marketStore w))).
  assert (preserves (λ w', sublist (openPositions (tradesStore w')) O ∧
                           storesReachable t0 w' ∧ booksBalanced w')
            (forEach (maybeCloseOne random trader timestamp prices)
                     (openOf (trader_id trader) O))) as Hloop.
  { apply preserves_forEach_in. intros x Hx w' (Hsub & Hr & Hb).
    unfold openOf in Hx. apply list_elem_of_filter in Hx as [Hxid HxO].
    split_and!.
    - destruct (maybeCloseOne_ledger random trader timestamp prices x w')
        as [_ [-> | [price ->]]]; [done |].
      etrans; [apply closeTrade_open_sublist | done].
    - by apply reach_maybeCloseOne.
    - destruct Hst as [Hu _]. by apply (maybeCloseOne_books t0 _ _ _ O). }
  destruct (Hloop w) as (Hsub & Hr & Hb); [done |].
  split_and!; [| done | done]. by eapply stamped_sublist.
Qed.

Lemma runSimulationTick_ticking t0 T now w :
  (T < now)%Z → ticking t0 T traderIds w →
  ticking t0 now traderIds (worldOf (runSimulationTick random numberToString now w)).
Proof.
  intros Hlt (Hst & Hreach & Hbooks).
  pose proof Hreach as [_ [rops Hrops]].
  destruct (runRegistry_traderList_ids t0 rops) as [Hids _].
  rewrite <- Hrops in Hids.
  unfold runSimulationTick, bind at 1.
  pose proof (reach_marketTick random t0 now w Hreach) as Hreach1.
  pose proof (marketTick_books now w Hbooks) as Hbooks1.
  pose proof (marketTick_ledger random now w) as Hledger1.
  unfold marketTick in *.
  pose proof (generateNextTick_facts random now (marketStore w) (drawn w)) as Hshape.
  destruct (generateNextTick random now (marketStore w) (drawn w))
    as [[snapshot m1] k1].
  destruct Hshape as [Hnow _]. cbn [fst snd] in Hnow. cbn [fst]. rewrite Hnow.
  cbn [worldOf] in Hreach1, Hbooks1, Hledger1.
  unfold bind at 1, getWorld. cbn [tradersStore].
  set (w1 := mkWorld m1 (tradersStore w) (tradesStore w) k1) in *.
  destruct (forEach_indexed
              (λ pre w', ticking t0 now (trader_id <$> pre) w')
              (λ trader, (maybeCloseTrades random trader now ;;
                          maybeOpenTrade random numberToString trader now)%sim)
              (traderList (tradersStore w))) with (w := w1)
    as (pre & post & Hsplit & Hfinal).
  - intros pre x post w' Hsplit Hw'. unfold bind.
    pose proof (maybeCloseTrades_ticking t0 now (trader_id <$> pre) x now w' Hw') as Hc.
    assert (NoDup (trader_id <$> traderList (tradersStore w))) as Hnd.
    { rewrite Hids. apply (bool_decide_unpack _). by vm_compute. }
    assert (trader_id x ∈ traderIds ∧ trader_id x ∉ trader_id <$> pre) as [Hin Hnot].
    { rewrite Hsplit, fmap_app, fmap_cons in Hnd, Hids.
      apply NoDup_app in Hnd as (_ & Hdisj & _). split.
      - unfold traderIds. rewrite <- Hids. set_solver.
      - intros Hx. apply (Hdisj _ Hx). set_solver. }
    rewrite fmap_app. cbn [fmap list_fmap].
    destruct (maybeCloseTrades random x now w') as [[] w2 | w2]; cbn [worldOf] in *.
    + destruct Hc as (Hst2 & Hr2 & Hb2). split_and!.
      * by apply maybeOpenTrade_stamped.
      * by apply reach_maybeOpenTrade.
      * by apply maybeOpenTrade_books.
    + destruct Hc as (Hst2 & Hr2 & Hb2). split_and!; [| done | done].
      eapply stamped_weaken; [| done]. set_solver.
  - split_and!; [| done | done]. cbn [fmap list_fmap]. subst w1. cbn [tradesStore].
    by apply (stamped_later T now traderIds []).
  - destruct Hfinal as (Hst2 & Hr2 & Hb2). split_and!; [| done | done].
    eapply stamped_weaken; [| exact Hst2].
    unfold traderIds. rewrite <- Hids, Hsplit, fmap_app. set_solver.
Qed.

Lemma simulation_ticking t0 now1 now2 nows :
  StronglySorted Z.lt (now2 :: nows) →
  ticking t0 (default now2 (last nows)) traderIds
          (simulation random numberToString t0 now1 now2 nows).
Proof.
  intros Hsorted. induction nows as [| now nows IH] using rev_ind.
  - cbn [last default]. unfold simulation, runTicks, onMounted. cbn [foldl].
    unfold bind at 1.
    assert (ticking t0 (now2 - 1) traderIds (worldInit t0)) as Hinit.
    { split_and!.
      - split; [apply NoDup_nil_2 | constructor].
      - split; by exists [].
      - intros _ id trader Hl. cbn [worldInit tradersStore] in Hl.
        destruct (tradersInit_lookup t0 id trader Hl) as [Hs _].
        unfold closedBy. cbn [worldInit tradesStore tradesInit history].
        rewrite filter_nil, Hs. cbn [fmap list_fmap sumQ foldr length filter].
        change (runRegistry t0 []) with (tradersInit t0) in *.
        destruct (registry_accountOk t0 [] id trader Hl) as (_ & _ & _ & _ & _ & Hlast & _).
        revert Hl Hlast. unfold tradersInit, strategies.
        cbn [foldl traders newTrader trader_id]. rewrite !lookup_insert.
        repeat case_decide; intros [= <-]; by vm_compute. }
    destruct Hinit as (Hst & Hreach & Hbooks).
    pose proof (reach_marketTick random t0 now1 _ Hreach) as Hreach1.
    pose proof (marketTick_books now1 _ Hbooks) as Hbooks1.
    pose proof (marketTick_ledger random now1 (worldInit t0)) as Hledger.
    destruct (marketTick random now1 (worldInit t0)) as [snapshot w1 | w1] eqn:E;
      cbn [worldOf] in *.
    + apply (runSimulationTick_ticking t0 (now2 - 1)); [lia |].
      split_and!; [| done | done]. by rewrite Hledger.
    + unfold marketTick in E.
      by destruct (generateNextTick _ _ _ _) as [[snapshot m] k].
  - rewrite simulation_snoc, last_snoc. cbn [default].
    change (now2 :: nows ++ [now]) with ((now2 :: nows) ++ [now]) in Hsorted.
    apply StronglySorted_app in Hsorted as (Hlt & Hs & _).
    apply (runSimulationTick_ticking t0 (default now2 (last nows))); [| by apply IH].
    apply Hlt; [| by apply list_elem_of_singleton].
    destruct (last nows) as [x |] eqn:El; cbn [default]; [| set_solver].
    apply elem_of_cons. right. apply last_Some in El as [l' ->]. set_solver.
Qed.

End Books.

(** The books balance in the running application: when the simulation
    ticks happen at strictly increasing times and the history has not yet
    reached its bound of 200 trades, every trader's balance is exactly 10000
    plus the sum of the pnl of its own closed trades in the history, its
    [totalTrades] is the number of those trades and its [wins] the number
    of them with a positive pnl. *)
Theorem books_balance (random : nat → Q) (numberToString : Q → string)
    (t0 now1 now2 : Z) (nows : list Z) :
  StronglySorted Z.lt (now2 :: nows) →
  let w := simulation random numberToString t0 now1 now2 nows in
  length (history (tradesStore w)) < 200 →
  Forall (λ trader,
            let mine := filter (λ t, trade_aiTrader t = trader_id trader)
                               (history (tradesStore w)) in
            (balance trader == 10000 + sumQ (pnlOf <$> mine))%Q ∧
            totalTrades (stats trader) = Z.of_nat (length mine) ∧
            wins (stats trader) =
              Z.of_nat (length (filter (λ t, isWin t = true) mine)))
         (traderList (tradersStore w)).
Proof.
  intros Hsorted w Hlen.
  destruct (simulation_ticking random numberToString t0 now1 now2 nows Hsorted)
    as (_ & [_ [rops Hrops]] & Hbooks).
  fold w in Hrops, Hbooks.
  destruct (runRegistry_traderList_ids t0 rops) as [_ Hlook].
  rewrite <- Hrops in Hlook.
  apply Forall_forall. intros trader Hin.
  apply (Hbooks Hlen (trader_id trader) trader). by apply Hlook.
Qed.

Lemma books_balance_witness :
  length (history (tradesStore busyWorld)) = 8 ∧
  Forall (λ trader,
            (balance trader ==
             10000 + sumQ (pnlOf <$> filter (λ t, trade_aiTrader t = trader_id trader)
                                            (history (tradesStore busyWorld))))%Q)
         (traderList (tradersStore busyWorld)).
Proof.
  split; [by vm_compute |].
  eapply Forall_impl.
  - apply (books_balance mixedRandom toFixed2String 0 1000 2000
             [3000; 4000; 5000; 6000; 7000; 8000]%Z).
    + repeat constructor.
    + vm_compute. lia.
  - intros trader H. exact (proj1 H).
Defined.

(** ** Open and closed trades *)

Lemma ledger_invariant2 (P R : Trade → Prop) :
  (∀ p, P (buildTrade p)) →
  (∀ t exitPrice timestamp, P t → R (closedOf t exitPrice timestamp)) →
  ∀ ops, Forall P (openPositions (runLedger ops)) ∧ Forall R (history (runLedger ops)).
Proof.
  intros Hnew Hclose ops.
  induction ops as [| op ops [IHo IHh]] using rev_ind; [by split |].
  rewrite runLedger_snoc. set (s := runLedger ops) in *.
  destruct op as [p | tradeId exitPrice timestamp]; cbn [applyLedgerOp].
  - split; [| done]. cbn [createTrade snd openPositions].
    apply Forall_app. split; [done |]. by constructor.
  - unfold closeTrade.
    destruct (list_find _ _) as [[index trade] |] eqn:E;
      cbn [snd openPositions history]; [| done].
    apply list_find_Some in E as (Hl & _ & _).
    split; [by apply Forall_delete |].
    apply Forall_take. constructor; [| done].
    apply Hclose. by apply (Forall_lookup_1 P (openPositions s) index trade).
Qed.

(** After any sequence of [createTrade] and [closeTrade] calls, every open
    position has status open and no exit price, pnl or close timestamp, and
    every trade of the history has status closed and carries all three: a
    trade goes from open to closed and never back. *)
Theorem open_and_closed (ops : list LedgerOp) :
  Forall (λ t, trade_status t = status_open ∧ trade_exitPrice t = None ∧
               trade_pnl t = None ∧ trade_closeTimestamp t = None)
         (openPositions (runLedger ops)) ∧
  Forall (λ t, trade_status t = status_closed ∧ is_Some (trade_exitPrice t) ∧
               is_Some (trade_pnl t) ∧ is_Some (trade_closeTimestamp t))
         (history (runLedger ops)).
Proof.
  apply (ledger_invariant2 isOpen isClosed).
  - by intros p.
  - intros t exitPrice timestamp _. by split_and!; cbn.
Qed.

(** ** Brackets and exits *)

Lemma toFixed2_neg x : (x <= -0.005 → toFixed2 x < 0)%Q.
Proof.
  intros H. apply Qle_lt_trans with (toFixed2 (-0.005)); [| by vm_compute].
  by apply toFixed_mono.
Qed.

(** For an entry price above 1/6 the brackets of a new trade lie strictly
    on both sides of the entry price, stop loss below and take profit above
    for a long trade and the other way round for a short one; so neither
    bracket is hit at the entry price itself. *)
Theorem brackets_straddle_entry (p : Payload) :
  (1 # 6 < p_entryPrice p)%Q →
  let t := buildTrade p in
  match trade_type t with
  | long => (trade_stopLoss t < trade_entryPrice t < trade_takeProfit t)%Q
  | short => (trade_takeProfit t < trade_entryPrice t < trade_stopLoss t)%Q
  end ∧
  ¬ bracketHit (trade_entryPrice t) t.
Proof.
  intros He t. subst t. unfold bracketHit.
  cbn [buildTrade trade_type trade_stopLoss trade_takeProfit trade_entryPrice].
  set (e := p_entryPrice p) in *.
  destruct (p_type p);
    [rewrite !decide_True by done | rewrite !decide_False by done].
  - pose proof (toFixed2_near (e * 0.97)) as [_ H1].
    pose proof (toFixed2_near (e * 1.03)) as [H2 _].
    split; [lra |]. intros [? | ?]; lra.
  - pose proof (toFixed2_near (e * 0.97)) as [_ H1].
    pose proof (toFixed2_near (e * 1.03)) as [H2 _].
    split; [lra |]. intros [? | ?]; lra.
Qed.

Lemma brackets_straddle_entry_witness :
  (trade_stopLoss (buildTrade (examplePayload 100 1 long)) < 100
   < trade_takeProfit (buildTrade (examplePayload 100 1 long)))%Q.
Proof.
  apply (proj1 (brackets_straddle_entry (examplePayload 100 1 long)
                  ltac:(reflexivity))).
Defined.

(** An exit at a hit take profit is a win and an exit at a hit stop loss
    is a loss: for a trade with the brackets of its entry price, an entry
    price of at least 5 and a size of at least 0.32, [closeTrade] books a
    positive pnl when the exit price has reached the take profit and a
    negative one when it has reached the stop loss. *)
Theorem bracket_exits_sign (trade : Trade) (exitPrice : Q) :
  bracketsOk trade →
  (5 <= trade_entryPrice trade)%Q → (0.32 <= trade_size trade)%Q →
  match trade_type trade with
  | long =>
      ((trade_takeProfit trade <= exitPrice → 0 < realizedPnl trade exitPrice) ∧
       (exitPrice <= trade_stopLoss trade → realizedPnl trade exitPrice < 0))%Q
  | short =>
      ((exitPrice <= trade_takeProfit trade → 0 < realizedPnl trade exitPrice) ∧
       (trade_stopLoss trade <= exitPrice → realizedPnl trade exitPrice < 0))%Q
  end.
Proof.
  intros [Hsl Htp] He Hs. unfold realizedPnl.
  set (e := trade_entryPrice trade) in *. set (s := trade_size trade) in *.
  pose proof (toFixed2_near (e * 0.97)) as [Ha1 Ha2].
  pose proof (toFixed2_near (e * 1.03)) as [Hb1 Hb2].
  assert (∀ d, 0.145 <= d → 0.005 <= d * s)%Q as Hgain.
  { intros d Hd. apply Qle_trans with (0.145 * 0.32)%Q; [by vm_compute |].
    apply Qle_trans with (d * 0.32)%Q.
    - apply Qmult_le_compat_r; [done | by vm_compute].
    - rewrite (Qmult_comm d 0.32), (Qmult_comm d s).
      apply Qmult_le_compat_r; lra. }
  assert (∀ d, d <= -0.145 → d * s <= -0.005)%Q as Hloss.
  { intros d Hd. specialize (Hgain (- d)%Q ltac:(lra)). lra. }
  destruct (trade_type trade);
    [rewrite !decide_True by done | rewrite !decide_False by done];
    rewrite Hsl, Htp; split; intros H.
  - apply toFixed2_pos, Hgain. lra.
  - apply toFixed2_neg, Hloss. lra.
  - apply toFixed2_pos, Hgain. lra.
  - apply toFixed2_neg, Hloss. lra.
Qed.

Lemma bracket_exits_sign_witness :
  (0 < realizedPnl (buildTrade (examplePayload 100 1 long)) 103)%Q.
Proof.
  apply (proj1 (bracket_exits_sign (buildTrade (examplePayload 100 1 long)) 103
                  (buildTrade_brackets _) ltac:(by vm_compute) ltac:(by vm_compute))).
  by vm_compute.
Defined.

(** ** Entry prices and sizes in the running application *)

Lemma size_range (risk : RiskTolerance) (r : Q) :
  (0 <= r < 1)%Q →
  (0.32 <= toFixed2 (riskSizeMap risk * (r * 0.6 + 0.4)) <= 1.8)%Q.
Proof.
  intros Hr. split.
  - apply Qle_trans with (toFixed2 0.32); [by vm_compute |].
    apply toFixed_mono. destruct risk; unfold riskSizeMap; lra.
  - apply Qle_trans with (toFixed2 1.8); [| by vm_compute].
    apply toFixed_mono. destruct risk; unfold riskSizeMap; lra.
Qed.

Lemma advanceAssets_five random timestamp l k :
  Forall (λ a, (5 <= asset_price a)%Q) (advanceAssets random timestamp l k).1.
Proof.
  pose proof (advanceAssets_Forall2 random (λ _ a', (5 <= asset_price a')%Q)
                timestamp) as H.
  specialize (H ltac:(intros asset k0;
                      destruct (advanceAsset_spec random timestamp asset k0)
                        as (_ & _ & -> & _);
                      apply Qle_trans with (toFixed2 5);
                      [by compute | apply toFixed_mono, evolvePrice_floor])
                l k).
  induction H; by constructor.
Qed.

Section Sane.
Variable random : nat → Q.
Variable numberToString : Q → string.
Hypothesis random_range : inUnitInterval random.

Lemma marketTick_sane now : preserves worldSane (marketTick random now).
Proof.
  intros w (_ & Ho & Hh). unfold worldSane.
  rewrite marketTick_ledger. split; [| done].
  unfold marketTick.
  pose proof (generateNextTick_assets random now (marketStore w) (drawn w)) as Ha.
  destruct (generateNextTick _ _ _ _) as [[snapshot m] k].
  cbn [worldOf marketStore fst snd] in *. rewrite Ha.
  apply advanceAssets_five.
Qed.

Lemma maybeCloseOne_sane trader timestamp prices trade :
  preserves worldSane (maybeCloseOne random trader timestamp prices trade).
Proof.
  intros w (Ha & Ho & Hh). unfold worldSane.
  destruct (maybeCloseOne_ledger random trader timestamp prices trade w)
    as [-> [-> | [price ->]]]; [done |].
  split; [done |]. unfold closeTrade.
  destruct (list_find _ _) as [[index y] |] eqn:E;
    cbn [snd openPositions history]; [| done].
  apply list_find_Some in E as (Hl & _ & _).
  split; [by apply Forall_delete |].
  apply Forall_take. constructor; [| done].
  exact (Forall_lookup_1 tradeSane _ index y Ho Hl).
Qed.

Lemma maybeOpenTrade_sane trader timestamp :
  preserves worldSane (maybeOpenTrade random numberToString trader timestamp).
Proof.
  intros w (Ha & Ho & Hh).
  unfold maybeOpenTrade, selectAsset, bind, getWorld, rand, ret, throw,
    onTrades, onTraders.
  destruct (decide (3 ≤ _)); [done |].
  cbn [drawn marketStore tradersStore tradesStore].
  destruct (negb _); [done |].
  cbn [drawn marketStore tradersStore tradesStore].
  destruct (at_index _ _) as [asset |] eqn:Hsel; [| done].
  cbn [worldOf createTrade]. unfold worldSane.
  cbn [marketStore tradesStore openPositions history].
  split_and!; [done | | done].
  apply Forall_app. split; [done |]. constructor; [| done].
  split; cbn [buildTrade trade_entryPrice trade_size p_entryPrice p_size].
  - unfold at_index in Hsel. destruct (_ <? _)%Z; [done |].
    apply list_elem_of_lookup_2 in Hsel. rewrite Forall_forall in Ha. apply Ha.
    destruct (decide (length _ = 0)); [done |].
    by apply list_elem_of_filter in Hsel as [_ ?].
  - apply size_range, random_range.
Qed.

Lemma runSimulationTick_sane now :
  preserves worldSane (runSimulationTick random numberToString now).
Proof.
  unfold runSimulationTick. apply preserves_bind; [apply marketTick_sane |].
  intros snapshot. apply preserves_bind; [apply preserves_getWorld |].
  intros w0. apply preserves_forEach. intros trader.
  apply preserves_bind.
  - unfold maybeCloseTrades. apply preserves_bind; [apply preserves_getWorld |].
    intros w1. apply preserves_forEach. intros trade. apply maybeCloseOne_sane.
  - intros _. apply maybeOpenTrade_sane.
Qed.

Lemma simulation_sane t0 now1 now2 nows :
  worldSane (simulation random numberToString t0 now1 now2 nows).
Proof.
  unfold simulation. apply runTicks_preserves; [apply runSimulationTick_sane |].
  unfold onMounted.
  apply (preserves_bind worldSane (marketTick random now1)
           (λ _, runSimulationTick random numberToString now2)).
  - apply marketTick_sane.
  - intros _. apply runSimulationTick_sane.
  - split_and!; [| constructor | constructor].
    unfold worldInit, marketInit, ASSETS. cbn [marketStore assets fmap list_fmap].
    repeat constructor; by vm_compute.
Qed.

End Sane.

(** In the running application, with random draws in [0, 1), every asset
    price is at least 5 and every trade, open or closed, was entered at a
    price of at least 5 with a size between 0.32 and 1.8: sizes are
    positive. *)
Theorem trades_are_sane (random : nat → Q) (numberToString : Q → string)
    (t0 now1 now2 : Z) (nows : list Z) :
  inUnitInterval random →
  let w := simulation random numberToString t0 now1 now2 nows in
  Forall (λ a, (5 <= asset_price a)%Q) (assets (marketStore w)) ∧
  Forall (λ t, (5 <= trade_entryPrice t)%Q ∧ (0.32 <= trade_size t <= 1.8)%Q)
         (openPositions (tradesStore w) ++ history (tradesStore w)).
Proof.
  intros Hr w.
  destruct (simulation_sane random numberToString Hr t0 now1 now2 nows)
    as (Ha & Ho & Hh).
  split; [done | by apply Forall_app].
Qed.

Lemma trades_are_sane_witness :
  Forall (λ t, (5 <= trade_entryPrice t)%Q ∧ (0.32 <= trade_size t <= 1.8)%Q)
         (openPositions (tradesStore exampleWorld) ++ history (tradesStore exampleWorld)).
Proof.
  apply (proj2 (trades_are_sane steadyRandom toFixed2String 0 1000 2000 [3000; 4000]%Z
                  ltac:(intros k; unfold steadyRandom, Qle, Qlt; simpl; lia))).
Defined.
